(** * vecmath.h: vector primitives and the fast exponential of CRFsuite

    A shallow embedding of [lib/crf/src/vecmath.h].

    - A C [double] is a primitive binary64 float ([PrimFloat.float]); every
      operation rounds to nearest-even, as the C code does when it is
      evaluated in strict double precision.  NaN payloads are not
      represented: there is one NaN.
    - Buffers live in one arena of [floatval_t] cells; a pointer is an index
      into the arena, so two buffers can be disjoint, identical or overlap.
      An access outside the arena is undefined behaviour in C and a failure
      ([None]) here.
    - Functions that touch memory run in a small state-and-failure monad.
    - Bounds on rounded results are proved on the real values of the
      numbers. *)

From Stdlib Require Import ZArith Floats Lia Bool Reals Lra.
From stdpp Require Import base option list.

Set Warnings "-inexact-float".

(** ** C scalars *)

Module CInt.
Local Open Scope Z_scope.

Definition INT_MIN : Z := - 2 ^ 31.
Definition INT_MAX : Z := 2 ^ 31 - 1.

Definition in_range (z : Z) : bool := (INT_MIN <=? z) && (z <=? INT_MAX).

(** [(unsigned char) v] *)
Definition to_uchar (v : Z) : Z := v mod 256.
End CInt.

Module Double.
Local Open Scope Z_scope.

(** The integer part of a finite value, rounded toward zero. *)
Definition SFtrunc (f : spec_float) : option Z :=
  match f with
  | S754_zero _ => Some 0
  | S754_finite s m e => Some (cond_Zopp s (Z.shiftl (Z.pos m) e))
  | S754_infinity _ | S754_nan => None
  end.

(** [(int) x]: the fractional part is discarded; the conversion is
    undefined when the integer part does not fit an [int] (and for NaN and
    the infinities). *)
Definition to_int (x : float) : option Z :=
  z ← SFtrunc (Prim2SF x);
  if CInt.in_range z then Some z else None.

(** [(double) n] for an [int] [n]: always exact. *)
Definition of_int (n : Z) : float :=
  if n <? 0 then (- of_uint63 (Uint63.of_Z (- n)))%float
  else of_uint63 (Uint63.of_Z n).

(** *** The IEEE-754 binary64 interchange format *)

Definition sign_bit (s : bool) : Z := if s then 2 ^ 63 else 0.

Definition SF_to_bits (f : spec_float) : Z :=
  match f with
  | S754_zero s => sign_bit s
  | S754_infinity s => Z.lor (sign_bit s) (Z.shiftl 2047 52)
  | S754_nan => Z.lor (Z.shiftl 2047 52) (2 ^ 51)
  | S754_finite s m e =>
      if Z.pos m <? 2 ^ 52 then Z.lor (sign_bit s) (Z.pos m)
      else Z.lor (sign_bit s)
             (Z.lor (Z.shiftl (e + 1075) 52) (Z.pos m - 2 ^ 52))
  end.

Definition bits_to_SF (b : Z) : spec_float :=
  let s := Z.testbit b 63 in
  let e := Z.land (Z.shiftr b 52) 2047 in
  let f := Z.land b (2 ^ 52 - 1) in
  if e =? 0 then
    match f with Z.pos p => S754_finite s p (-1074) | _ => S754_zero s end
  else if e =? 2047 then
    (if f =? 0 then S754_infinity s else S754_nan)
  else
    match f + 2 ^ 52 with
    | Z.pos p => S754_finite s p (e - 1075)
    | _ => S754_nan
    end.

Definition to_bits (x : float) : Z := SF_to_bits (Prim2SF x).
Definition of_bits (b : Z) : float := SF2Prim (bits_to_SF b).

(** The object representation: eight bytes, least significant first (the
    byte order [fastexp] relies on when it writes [u.c[7]] and [u.c[6]]). *)
Fixpoint le_split (k : nat) (w : Z) : list Z :=
  match k with
  | O => []
  | S k' => Z.land w 255 :: le_split k' (Z.shiftr w 8)
  end.

Fixpoint le_combine (l : list Z) : Z :=
  match l with
  | [] => 0
  | b :: t => Z.lor b (Z.shiftl (le_combine t) 8)
  end.

Definition to_bytes (x : float) : list Z := le_split 8 (to_bits x).
Definition of_bytes (c : list Z) : float := of_bits (le_combine c).
End Double.

(** ** fastexp *)

Section fastexp.
Local Open Scope float_scope.

Definition MAXLOG : float := 7.08396418532264106224E2.
Definition MINLOG : float := -7.08396418532264106224E2.
Definition LOG2E : float := 1.4426950408889634073599.
Definition INFINITY : float := 1.79769313486231570815E308.
Definition C1 : float := 6.93145751953125E-1.
Definition C2 : float := 1.42860682030941723212E-6.

(** [n = (int)(LOG2E * x + 0.5)] *)
Definition fastexp_n (x : float) : option Z :=
  Double.to_int (LOG2E * x + 0.5).

(** [px = (double)n; x -= px * C1; x -= px * C2] *)
Definition fastexp_reduce (x : float) (n : Z) : float :=
  let px := Double.of_int n in
  let x := x - px * C1 in
  let x := x - px * C2 in
  x.

(** [px = x * P(x**2)] *)
Definition fastexp_P (x : float) : float :=
  let xx := x * x in
  let px := 1.26177193074810590878E-4 in
  let px := px * xx in
  let px := px + 3.02994407707441961300E-2 in
  let px := px * xx in
  let px := px + 9.99999999999999999910E-1 in
  let px := px * x in
  px.

(** [qx = Q(x**2)] *)
Definition fastexp_Q (x : float) : float :=
  let xx := x * x in
  let qx := 3.00198505138664455042E-6 in
  let qx := qx * xx in
  let qx := qx + 2.52448340349684104192E-3 in
  let qx := qx * xx in
  let qx := qx + 2.27265548208155028766E-1 in
  let qx := qx * xx in
  let qx := qx + 2.00000000000000000009E0 in
  qx.

(** The union [u] after [u.d = 0; n += 1023; u.c[7] = ...; u.c[6] = ...],
    for the value [n] had before the increment. *)
Definition fastexp_union (n : Z) : list Z :=
  let u := Double.to_bytes 0 in
  let n := (n + 1023)%Z in
  let u := <[7%nat := CInt.to_uchar (Z.land (Z.shiftr n 4) 0x7F)]> u in
  let u := <[6%nat := CInt.to_uchar (Z.shiftl (Z.land n 0x0F) 4)]> u in
  u.

Definition fastexp (x : float) : option float :=
  if MAXLOG <? x then Some INFINITY
  else if x <? MINLOG then Some 0
  else
    n ← fastexp_n x;
    let x := fastexp_reduce x n in
    let px := fastexp_P x in
    let qx := fastexp_Q x in
    let x := px / (qx - px) in
    let x := 1.0 + 2.0 * x in
    let u := fastexp_union n in
    Some (x * Double.of_bytes u).
End fastexp.


(** Modelled from the spec's words, to compare [fastexp_n] with: "round(x *
    LOG2E)", the integer nearest to a finite value (halfway cases away from
    zero, as C's [round]). *)
Definition SFnearest (f : spec_float) : option Z :=
  match f with
  | S754_zero _ => Some 0%Z
  | S754_finite s m e =>
      Some (cond_Zopp s ((Z.shiftl (Z.pos m) (e + 1) + 1) / 2))%Z
  | S754_infinity _ | S754_nan => None
  end.

Definition round_nearest (x : float) : option Z := SFnearest (Prim2SF x).

(** ** Memory *)

(** Modelled from the spec: the typedef of [floatval_t] is declared outside
    vecmath.h; the scalar type is the double precision one. *)
Abbreviation floatval_t := float.

Definition sizeof_floatval_t : Z := 8.

(** [size_t] arithmetic wraps modulo [2^64]. *)
Definition size_t_wrap (z : Z) : Z := (z mod 2 ^ 64)%Z.

Abbreviation mem := (list float).
Abbreviation ptr := nat.

Definition M (A : Type) : Type := mem -> option (A * mem).

#[global] Instance M_ret : MRet M := fun A a m => Some (a, m).

#[global] Instance M_bind : MBind M := fun A B k c m =>
  match c m with
  | Some (a, m') => k a m'
  | None => None
  end.

(** An operation that is undefined for some operands. *)
Definition lift {A} (o : option A) : M A := fun m =>
  match o with
  | Some a => Some (a, m)
  | None => None
  end.

Definition load (p : ptr) : M floatval_t := fun m =>
  match m !! p with
  | Some v => Some (v, m)
  | None => None
  end.

Definition store (p : ptr) (v : floatval_t) : M unit := fun m =>
  if decide (p < length m) then Some (tt, <[p := v]> m) else None.

Arguments load p%_nat_scope.
Arguments store p%_nat_scope v%_float_scope.

(** [for (i = i0; i < i0 + k; ++i) a = body(i, a);] where [a] stands for the
    local variables the body updates. *)
Fixpoint for_range {A} (i k : nat) (body : nat -> A -> M A) (a : A) : M A :=
  match k with
  | O => mret a
  | S k' => a' ← body i a; for_range (S i) k' body a'
  end.

(** [for (i = 0; i < n; ++i)] for an [int] bound: no iteration when
    [n <= 0]. *)
Definition for_to {A} (n : Z) (body : nat -> A -> M A) (a : A) : M A :=
  for_range 0 (Z.to_nat n) body a.

(** [memset(p, c, size)] on a region of whole cells: each of the
    [size / sizeof(floatval_t)] cells gets all its bytes set to
    [(unsigned char) c]. *)
Definition memset (p : ptr) (c : Z) (size : Z) : M unit :=
  let v := Double.of_bytes (replicate 8 (CInt.to_uchar c)) in
  for_to (size / sizeof_floatval_t) (fun i _ => store (p + i) v) tt.

(** [memcpy(q, p, size)] on regions of whole cells; overlapping regions are
    undefined. *)
Definition memcpy (q p : ptr) (size : Z) : M unit := fun m =>
  let k := Z.to_nat (size / sizeof_floatval_t) in
  if decide (k = 0 \/ q + k <= p \/ p + k <= q) then
    for_range 0 k (fun i _ => v ← load (p + i); store (q + i) v) tt m
  else None.

(** ** The vector operations *)

Section vecmath.
Local Open Scope float_scope.

Definition veczero (x : ptr) (n : Z) : M unit :=
  memset x 0 (size_t_wrap (sizeof_floatval_t * n)).

Definition vecset (x : ptr) (a : floatval_t) (n : Z) : M unit :=
  for_to n (fun i _ => store (x + i) a) tt.

Definition veccopy (y x : ptr) (n : Z) : M unit :=
  memcpy y x (size_t_wrap (sizeof_floatval_t * n)).

Definition vecadd (y x : ptr) (n : Z) : M unit :=
  for_to n (fun i _ =>
    yi ← load (y + i); xi ← load (x + i); store (y + i) (yi + xi)) tt.

Definition vecaadd (y : ptr) (a : floatval_t) (x : ptr) (n : Z) : M unit :=
  for_to n (fun i _ =>
    yi ← load (y + i); xi ← load (x + i); store (y + i) (yi + a * xi)) tt.

Definition vecsub (y x : ptr) (n : Z) : M unit :=
  for_to n (fun i _ =>
    yi ← load (y + i); xi ← load (x + i); store (y + i) (yi - xi)) tt.

Definition vecasub (y : ptr) (a : floatval_t) (x : ptr) (n : Z) : M unit :=
  for_to n (fun i _ =>
    yi ← load (y + i); xi ← load (x + i); store (y + i) (yi - a * xi)) tt.

Definition vecmul (y x : ptr) (n : Z) : M unit :=
  for_to n (fun i _ =>
    yi ← load (y + i); xi ← load (x + i); store (y + i) (yi * xi)) tt.

Definition vecinv (y : ptr) (n : Z) : M unit :=
  for_to n (fun i _ => yi ← load (y + i); store (y + i) (1 / yi)) tt.

Definition vecscale (y : ptr) (a : floatval_t) (n : Z) : M unit :=
  for_to n (fun i _ => yi ← load (y + i); store (y + i) (yi * a)) tt.

Definition vecdot (x y : ptr) (n : Z) : M floatval_t :=
  for_to n (fun i s =>
    xi ← load (x + i); yi ← load (y + i); mret (s + xi * yi)) 0.

Definition vecsum (x : ptr) (n : Z) : M floatval_t :=
  for_to n (fun i s => xi ← load (x + i); mret (s + xi)) 0.

(** [vecexp], with the scalar exponential it calls as a parameter. *)
Definition vecexp_with (exp_fn : float -> option float)
    (x : ptr) (n : Z) : M unit :=
  for_to n (fun i _ =>
    xi ← load (x + i);
    v ← (if xi =? 0 then mret 1 else lift (exp_fn xi));
    store (x + i) v) tt.

Definition vecexp (x : ptr) (n : Z) : M unit := vecexp_with fastexp x n.

(** [log] is the C library's natural logarithm. *)
Variable log : float -> float.

Definition vecsumlog (x : ptr) (n : Z) : M floatval_t :=
  for_to n (fun i s => xi ← load (x + i); mret (s + log xi)) 0.

End vecmath.

Arguments veczero x%_nat_scope n%_Z_scope.
Arguments vecset x%_nat_scope a%_float_scope n%_Z_scope.
Arguments veccopy (y x)%_nat_scope n%_Z_scope.
Arguments vecadd (y x)%_nat_scope n%_Z_scope.
Arguments vecaadd y%_nat_scope a%_float_scope x%_nat_scope n%_Z_scope.
Arguments vecsub (y x)%_nat_scope n%_Z_scope.
Arguments vecasub y%_nat_scope a%_float_scope x%_nat_scope n%_Z_scope.
Arguments vecmul (y x)%_nat_scope n%_Z_scope.
Arguments vecinv y%_nat_scope n%_Z_scope.
Arguments vecscale y%_nat_scope a%_float_scope n%_Z_scope.
Arguments vecdot (x y)%_nat_scope n%_Z_scope.
Arguments vecsum x%_nat_scope n%_Z_scope.
Arguments vecexp_with exp_fn x%_nat_scope n%_Z_scope.
Arguments vecexp x%_nat_scope n%_Z_scope.
Arguments vecsumlog log x%_nat_scope n%_Z_scope.

(** ** Notions used in the statements *)

(** The cells of a buffer that lies inside the arena, as a function of the
    index. *)
Definition cells (m : mem) (x : ptr) (i : nat) : float :=
  default 0%float (m !! (x + i)%nat).

(** A buffer of numbers: no cell of [x[0..n-1]] is NaN. *)
Definition no_nan (m : mem) (x : ptr) (n : Z) : Prop :=
  forall i v, (i < Z.to_nat n)%nat -> m !! (x + i)%nat = Some v ->
    is_nan v = false.

Abbreviation pow2 := (powerRZ 2).

(** The real value of a mantissa and exponent pair. *)
Definition SFval (m e : Z) : R := (IZR m * pow2 e)%R.

(** The fields of the pattern that [fastexp] writes into the union, checked
    for the biased exponent [n']. *)
Definition union_fields_ok (n' : Z) : bool :=
  let b := Double.le_combine (fastexp_union (n' - 1023)) in
  (b =? Z.shiftl n' 52)%Z
  && negb (Z.testbit b 63)
  && (Z.land (Z.shiftr b 52) 2047 =? n')%Z
  && (Z.land b (2 ^ 52 - 1) =? 0)%Z.

(** A computation that changes no cell but [p], and not the size of the
    arena. *)
Definition writes_only {A} (p : ptr) (c : M A) : Prop :=
  forall m a m', c m = Some (a, m') ->
    length m' = length m /\ forall q, q <> p -> m' !! q = m !! q.

(** The arena keeps its size and every cell outside [y[0..n-1]] its value. *)
Definition kept_outside (m m' : mem) (y : ptr) (n : Z) : Prop :=
  length m' = length m
  /\ forall q, q < y \/ y + Z.to_nat n <= q -> m' !! q = m !! q.

(** The sums that [vecadd] leaves when [y] starts one cell after [x]. *)
Fixpoint running_sum (m : mem) (x : ptr) (i : nat) : float :=
  match i with
  | O => cells m x 0
  | S i' => (cells m x (S i') + running_sum m x i')%float
  end.

(** The real value of a finite number (and [0] for the others). *)
Definition SFreal (f : spec_float) : R :=
  match f with
  | S754_finite s m e => SFval (cond_Zopp s (Z.pos m)) e
  | _ => 0%R
  end.

(** [(double)n * C1], checked against [n * C1] in integers scaled by
    [2^53]. *)
Definition C1_product_ok (n : Z) : bool :=
  match Prim2SF (Double.of_int n * C1) with
  | S754_zero _ => (n =? 0)%Z
  | S754_finite s m e =>
      (-53 <=? e)%Z
      && (cond_Zopp s (Z.pos m) * 2 ^ (e + 53) =? n * 6243301900419072)%Z
  | _ => false
  end.

(** ** The monad and the loop *)

Lemma bind_unfold {A B} (c : M A) (k : A -> M B) (m : mem) :
  (c ≫= k) m = match c m with Some (a, m') => k a m' | None => None end.
Proof. reflexivity. Qed.

Lemma bind_load {B} (p : ptr) (k : floatval_t -> M B) (m : mem) :
  (load p ≫= k) m = match m !! p with Some v => k v m | None => None end.
Proof. rewrite bind_unfold. unfold load. now destruct (m !! p). Qed.

Lemma store_Some (p : ptr) (v : floatval_t) (m : mem) :
  p < length m -> store p v m = Some (tt, <[p := v]> m).
Proof. intros Hp. unfold store. now rewrite decide_True. Qed.

Lemma for_range_S {A} (i k : nat) (body : nat -> A -> M A) (a : A) (m : mem) :
  for_range i (S k) body a m =
  match body i a m with
  | Some (a', m') => for_range (S i) k body a' m'
  | None => None
  end.
Proof. reflexivity. Qed.

(** Two bodies that agree at every index run the same loop. *)
Lemma for_range_ext {A} (body1 body2 : nat -> A -> M A) (k : nat) :
  (forall i a m, body1 i a m = body2 i a m) ->
  forall i a m, for_range i k body1 a m = for_range i k body2 a m.
Proof.
  intros Hbody. induction k as [|k IH]; intros i a m; [reflexivity|].
  rewrite !for_range_S, Hbody.
  destruct (body2 i a m) as [[a' m']|]; [apply IH | reflexivity].
Qed.

(** A loop whose body only reads: when, on the memory [m], the body at each
    index [j] of the range returns [g j a] and leaves [m] as it is, the loop
    returns the left-to-right fold of [g] over the indices. *)
Lemma for_range_pure {A} (body : nat -> A -> M A) (g : A -> nat -> A)
    (m : mem) (k : nat) :
  forall i a,
    (forall j a', i <= j < i + k -> body j a' m = Some (g a' j, m)) ->
    for_range i k body a m = Some (foldl g a (seq i k), m).
Proof.
  induction k as [|k IH]; intros i a Hbody; [reflexivity|].
  rewrite for_range_S, Hbody by lia. cbn [seq foldl].
  apply IH. intros j a' Hj. apply Hbody. lia.
Qed.

Lemma ret_frame {A} (a : A) (m : mem) (a' : A) (m' : mem) :
  (mret a : M A) m = Some (a', m') -> m' = m.
Proof. unfold mret, M_ret. intros H. now injection H as _ <-. Qed.

(** A loop whose body never changes the memory does not change it. *)
Lemma for_range_frame {A} (body : nat -> A -> M A) (k : nat) :
  (forall i a m a' m', body i a m = Some (a', m') -> m' = m) ->
  forall i a m a' m', for_range i k body a m = Some (a', m') -> m' = m.
Proof.
  intros Hbody. induction k as [|k IH]; intros i a m a' m' Hrun.
  - eapply ret_frame, Hrun.
  - rewrite for_range_S in Hrun.
    destruct (body i a m) as [[a1 m1]|] eqn:Hb; [|discriminate].
    apply Hbody in Hb as ->. eapply IH, Hrun.
Qed.

(** A body that loads and then returns a value leaves the memory alone. *)
Lemma load_then_ret_frame {A} (p : ptr) (k : floatval_t -> M A) :
  (forall v m a' m', k v m = Some (a', m') -> m' = m) ->
  forall m a' m', (load p ≫= k) m = Some (a', m') -> m' = m.
Proof.
  intros Hk m a' m'. rewrite bind_load.
  destruct (m !! p) as [v|]; [apply Hk | discriminate].
Qed.

(** ** Facts of binary64 arithmetic *)

Lemma float_mul_comm (x y : float) : (x * y = y * x)%float.
Proof.
  apply Prim2SF_inj. rewrite !mul_spec.
  destruct (Prim2SF x) as [sx|sx| |sx mx ex], (Prim2SF y) as [sy|sy| |sy my ey];
    cbn; rewrite ?(xorb_comm sx sy); try reflexivity.
  now rewrite Pos.mul_comm, Z.add_comm.
Qed.

(** Shifting a mantissa left by [k] bits and back is exact. *)
Lemma digits2_pos_shift (m k : positive) :
  Z.pos (digits2_pos (Pos.iter xO m k)) = (Z.pos (digits2_pos m) + Z.pos k)%Z.
Proof.
  induction k as [|k IH] using Pos.peano_ind.
  - cbn. lia.
  - rewrite Pos.iter_succ. cbn [digits2_pos]. lia.
Qed.

Lemma iter_pos_iter {A} (f : A -> A) (k : positive) :
  forall a, SpecFloat.iter_pos f k a = Pos.iter f a k.
Proof.
  induction k as [k IH|k IH|]; intros a; cbn;
    rewrite ?IH, ?Pos.iter_swap; reflexivity.
Qed.

Lemma iter_pos_shr_1_exact (m k : positive) :
  SpecFloat.iter_pos shr_1 k
    (Build_shr_record (Z.pos (Pos.iter xO m k)) false false)
  = Build_shr_record (Z.pos m) false false.
Proof.
  rewrite iter_pos_iter.
  induction k as [|k IH] using Pos.peano_ind; [reflexivity|].
  rewrite Pos.iter_succ_r, Pos.iter_succ. cbn [shr_1 orb]. exact IH.
Qed.

Lemma SFmul_1_l (f : spec_float) :
  valid_binary f = true -> SF64mul (Prim2SF 1) f = f.
Proof.
  intros Hv. change (Prim2SF 1) with (S754_finite false 4503599627370496 (-52)).
  destruct f as [s|s| |s m e]; try reflexivity.
  unfold SF64mul, SFmul. cbn [xorb].
  change (4503599627370496 * m)%positive with (Pos.iter xO m 52).
  cbn [valid_binary] in Hv. unfold SpecFloat.bounded, SpecFloat.canonical_mantissa in Hv.
  apply andb_true_iff in Hv as [Hc Hb]. apply Z.eqb_eq in Hc.
  unfold binary_round_aux, shr_fexp. cbn [Zdigits2].
  rewrite digits2_pos_shift.
  replace (Z.pos (digits2_pos m) + 52 + (-52 + e))%Z
    with (Z.pos (digits2_pos m) + e)%Z by lia.
  rewrite Hc. replace (e - (-52 + e))%Z with 52%Z by lia.
  cbn [shr shr_record_of_loc]. rewrite iter_pos_shr_1_exact.
  cbn [loc_of_shr_record shr_m round_nearest_even Zdigits2].
  replace (-52 + e + 52)%Z with e by lia.
  rewrite Hc, Z.sub_diag. cbn [shr shr_m]. now rewrite Hb.
Qed.

(** [1 * v] is [v], for every [v]. *)
Lemma float_mul_1_l (v : float) : (1 * v = v)%float.
Proof.
  apply Prim2SF_inj. rewrite mul_spec. apply SFmul_1_l, Prim2SF_valid.
Qed.

Lemma is_finite_SF (x : float) :
  is_finite x = true ->
  (exists s, Prim2SF x = S754_zero s)
  \/ (exists s m e, Prim2SF x = S754_finite s m e).
Proof.
  unfold is_finite, is_nan, is_infinity.
  rewrite !FloatAxioms.eqb_spec, abs_spec.
  change (Prim2SF infinity) with (S754_infinity false).
  destruct (Prim2SF x) as [s|[|]| |s m e]; cbn; try discriminate; eauto.
Qed.

(** [y + 0 * x] is [y] when [x] is finite and [y] is not [-0.0]. *)
Lemma float_add_0_mul (y x : float) :
  is_finite x = true -> y <> neg_zero -> (y + 0 * x = y)%float.
Proof.
  intros Hx Hy. apply Prim2SF_inj. rewrite add_spec, mul_spec.
  assert (Hy' : Prim2SF y <> S754_zero true).
  { intros H. apply Hy, Prim2SF_inj. exact H. }
  change (Prim2SF 0) with (S754_zero false).
  destruct (is_finite_SF x Hx) as [[s ->]|(s & mx & ex & ->)];
    destruct (Prim2SF y) as [[|]|sy| |sy my ey], s; cbn; congruence.
Qed.

Lemma float_neq_by_SF (u v : float) : Prim2SF u <> Prim2SF v -> u <> v.
Proof. intros H ->. now apply H. Qed.

Lemma MAXLOG_SF : Prim2SF MAXLOG = S754_finite false 6231120794008786 (-43).
Proof. reflexivity. Qed.

Lemma MINLOG_SF : Prim2SF MINLOG = S754_finite true 6231120794008786 (-43).
Proof. reflexivity. Qed.

Lemma LOG2E_SF : Prim2SF LOG2E = S754_finite false 6497320848556798 (-52).
Proof. reflexivity. Qed.

Lemma half_SF : Prim2SF 0.5 = S754_finite false 4503599627370496 (-53).
Proof. reflexivity. Qed.

(** The constant the source names [INFINITY] is the largest finite double,
    [(2^53 - 1) * 2^971]. *)
Lemma INFINITY_SF : Prim2SF INFINITY = S754_finite false 9007199254740991 971.
Proof. reflexivity. Qed.

(** ** Rounding *)

(** The exponent function of binary64. *)
Lemma fexp64 (z : Z) : fexp prec emax z = Z.max (z - 53) (-1074).
Proof. reflexivity. Qed.

(** A mantissa of [d] digits lies in [[2^(d-1), 2^d)]. *)
Lemma digits2_pos_bounds (m : positive) :
  (2 ^ (Z.pos (digits2_pos m) - 1) <= Z.pos m < 2 ^ Z.pos (digits2_pos m))%Z.
Proof.
  induction m as [m IH|m IH|]; cbn [digits2_pos];
    rewrite ?Pos2Z.inj_succ; [| |cbn; lia].
  - replace (Z.succ (Z.pos (digits2_pos m)) - 1)%Z with (Z.succ (Z.pos (digits2_pos m) - 1)) by lia.
    rewrite !Z.pow_succ_r by lia. lia.
  - replace (Z.succ (Z.pos (digits2_pos m)) - 1)%Z with (Z.succ (Z.pos (digits2_pos m) - 1)) by lia.
    rewrite !Z.pow_succ_r by lia. lia.
Qed.

(** One step of the right shift halves the mantissa, rounding down. *)
Lemma shr_1_m (r : shr_record) :
  (0 <= shr_m r)%Z ->
  (0 <= shr_m (shr_1 r))%Z /\ shr_m (shr_1 r) = (shr_m r / 2)%Z.
Proof.
  destruct r as [m r s]. cbn [shr_m]. intros Hm.
  destruct m as [|[p|p|]|p]; cbn [shr_1 shr_m]; try lia;
    (split; [lia | Z.div_mod_to_equations; lia]).
Qed.

Lemma iter_shr_1_m (k : positive) (r : shr_record) :
  (0 <= shr_m r)%Z ->
  (0 <= shr_m (SpecFloat.iter_pos shr_1 k r))%Z
  /\ shr_m (SpecFloat.iter_pos shr_1 k r) = (shr_m r / 2 ^ Z.pos k)%Z.
Proof.
  intros Hr. rewrite iter_pos_iter.
  induction k as [|k [IH0 IH]] using Pos.peano_ind.
  - cbn [Pos.iter]. rewrite Z.pow_1_r. now apply shr_1_m.
  - rewrite Pos.iter_succ.
    destruct (shr_1_m (Pos.iter shr_1 r k) IH0) as [H0 H1].
    split; [exact H0|]. rewrite H1, IH, Pos2Z.inj_succ, Z.pow_succ_r by lia.
    rewrite Z.div_div by lia. f_equal. lia.
Qed.

Section rounding.
Local Open Scope R_scope.

Lemma pow2_pos (e : Z) : 0 < pow2 e.
Proof. apply powerRZ_lt. lra. Qed.

Lemma pow2_add (a b : Z) : pow2 (a + b) = pow2 a * pow2 b.
Proof. apply powerRZ_add. lra. Qed.

Lemma pow2_IZR (k : Z) : (0 <= k)%Z -> IZR (2 ^ k) = pow2 k.
Proof.
  intros Hk. rewrite <- (Z2Nat.id k Hk), <- pow_IZR. apply pow_powerRZ.
Qed.

Lemma pow2_le (a b : Z) : (a <= b)%Z -> pow2 a <= pow2 b.
Proof.
  intros Hab. replace b with (a + (b - a))%Z by lia. rewrite pow2_add.
  assert (H1 : 1 <= pow2 (b - a)).
  { rewrite <- (Z2Nat.id (b - a)) by lia. rewrite <- pow_powerRZ.
    apply pow_R1_Rle. lra. }
  pose proof (pow2_pos a). nra.
Qed.

(** A right shift never increases the value, and does nothing when the
    shift count is not positive. *)
Lemma shr_val (m : Z) (r s : bool) (e n : Z) :
  (0 <= m)%Z ->
  let res := shr (Build_shr_record m r s) e n in
  (0 <= shr_m (fst res))%Z
  /\ SFval (shr_m (fst res)) (snd res) <= SFval m e
  /\ (n <= 0 -> res = (Build_shr_record m r s, e))%Z
  /\ (0 < n -> snd res = e + n /\ shr_m (fst res) = m / 2 ^ n)%Z.
Proof.
  intros Hm. unfold shr. destruct n as [|k|k]; cbn [fst snd shr_m].
  - repeat split; try lia; try lra.
  - destruct (iter_shr_1_m k (Build_shr_record m r s) Hm) as [H0 H1].
    cbn [shr_m] in H1. repeat split; try lia; try assumption.
    rewrite H1. unfold SFval. rewrite pow2_add, <- (pow2_IZR (Z.pos k)) by lia.
    assert (Hd : (m / 2 ^ Z.pos k * 2 ^ Z.pos k <= m)%Z).
    { rewrite Z.mul_comm. apply Z.mul_div_le. lia. }
    apply IZR_le in Hd. rewrite mult_IZR in Hd.
    pose proof (pow2_pos e). nra.
  - repeat split; try lia; try lra.
Qed.

Lemma round_nearest_even_bounds (m : Z) (l : location) :
  (m <= round_nearest_even m l <= m + 1)%Z.
Proof.
  destruct l as [|[| |]]; cbn [round_nearest_even]; try lia.
  destruct (Z.even m); lia.
Qed.

(** What [binary_round_aux] returns for an exact input [M * 2^E]: the pair
    it rounds to exceeds the input by at most one unit of the target
    exponent. *)
Lemma binary_round_aux_val (s : bool) (M : positive) (E : Z) :
  exists m3 e3 : Z,
    (0 <= m3)%Z
    /\ SFval m3 e3 <=
       SFval (Z.pos M) E + pow2 (fexp prec emax (Z.pos (digits2_pos M) + E))
    /\ binary_round_aux prec emax s (Z.pos M) E loc_Exact =
       match m3 with
       | Z0 => S754_zero s
       | Z.pos p =>
           if (e3 <=? emax - prec)%Z then S754_finite s p e3
           else S754_infinity s
       | Z.neg _ => S754_nan
       end.
Proof.
  unfold binary_round_aux, shr_fexp. cbn [Zdigits2 shr_record_of_loc].
  set (e1 := fexp prec emax (Z.pos (digits2_pos M) + E)).
  destruct (shr_val (Z.pos M) false false E (e1 - E)) as (Hq0 & Hqv & Hle & Hgt);
    [lia|].
  destruct (shr _ E (e1 - E)) as [mrs' e'] eqn:Hs1. cbn [fst snd] in *.
  set (m2 := round_nearest_even (shr_m mrs') (loc_of_shr_record mrs')).
  pose proof (round_nearest_even_bounds (shr_m mrs') (loc_of_shr_record mrs'))
    as Hm2. fold m2 in Hm2.
  assert (Hm2v : SFval m2 e' <= SFval (Z.pos M) E + pow2 e1).
  { pose proof (pow2_pos e1) as Hp1.
    destruct (Z_le_gt_dec (e1 - E) 0) as [Hk|Hk].
    - specialize (Hle Hk). injection Hle as -> ->.
      subst m2. cbn [shr_m loc_of_shr_record round_nearest_even]. lra.
    - destruct Hgt as [-> _]; [lia|].
      replace (E + (e1 - E))%Z with e1 in * by lia.
      unfold SFval in *. pose proof (pow2_pos e1).
      assert (IZR m2 <= IZR (shr_m mrs') + 1).
      { rewrite <- plus_IZR. apply IZR_le. lia. }
      nra. }
  destruct (shr_val m2 false false e' (fexp prec emax (Zdigits2 m2 + e') - e'))
    as (H30 & H3v & _); [lia|].
  destruct (shr _ e' _) as [mrs'' e''] eqn:Hs2. cbn [fst snd] in *.
  exists (shr_m mrs''), e''. split; [exact H30|]. split; [lra|reflexivity].
Qed.

(** That unit is at most [2^-52] of the value, or [2^-1074]. *)
Lemma fexp_ulp (M : positive) (E : Z) :
  pow2 (fexp prec emax (Z.pos (digits2_pos M) + E))
  <= SFval (Z.pos M) E * pow2 (-52) + pow2 (-1074).
Proof.
  rewrite fexp64. pose proof (digits2_pos_bounds M) as [Hd _].
  set (d := Z.pos (digits2_pos M)) in *.
  pose proof (pow2_pos (-1074)). pose proof (pow2_pos E). pose proof (pow2_pos (-52)).
  assert (0 <= SFval (Z.pos M) E * pow2 (-52)).
  { unfold SFval. assert (0 < IZR (Z.pos M)) by (apply IZR_lt; lia).
    apply Rmult_le_pos; [apply Rmult_le_pos|]; lra. }
  destruct (Z.max_spec (d + E - 53) (-1074)) as [[_ ->]|[_ ->]]; [lra|].
  replace (d + E - 53)%Z with ((d - 1) + (E + -52))%Z by lia.
  rewrite !pow2_add, <- pow2_IZR by lia.
  apply IZR_le in Hd. unfold SFval.
  assert (0 < pow2 E * pow2 (-52)) by (apply Rmult_lt_0_compat; lra).
  nra.
Qed.

Lemma pow2_m52 : pow2 (-52) = / 4503599627370496.
Proof. unfold powerRZ. simpl. lra. Qed.

Lemma pow2_m43 : pow2 (-43) = / 8796093022208.
Proof. unfold powerRZ. simpl. lra. Qed.

Lemma pow2_m53 : pow2 (-53) = / 9007199254740992.
Proof. unfold powerRZ. simpl. lra. Qed.

Lemma pow2_10 : pow2 10 = 1024.
Proof. unfold powerRZ. simpl. lra. Qed.

Lemma pow2_m1074 : pow2 (-1074) <= pow2 (-52).
Proof. apply pow2_le. lia. Qed.

(** Rounding the exact value [M * 2^E] gives a zero or a finite number
    that exceeds it by at most a relative [2^-52] and an absolute
    [2^-1074]. *)
Lemma binary_round_aux_le (s : bool) (M : positive) (E : Z) (B : R) :
  SFval (Z.pos M) E * (1 + pow2 (-52)) + pow2 (-1074) <= B -> B < 1024 ->
  binary_round_aux prec emax s (Z.pos M) E loc_Exact = S754_zero s
  \/ exists m e,
       binary_round_aux prec emax s (Z.pos M) E loc_Exact = S754_finite s m e
       /\ SFval (Z.pos m) e <= B.
Proof.
  intros HB HB'.
  destruct (binary_round_aux_val s M E) as (m3 & e3 & H0 & Hv & ->).
  pose proof (fexp_ulp M E) as Hu.
  destruct m3 as [|p|p]; [now left | right | lia].
  assert (Hp : SFval (Z.pos p) e3 <= B) by lra.
  assert (He : (e3 <= emax - prec)%Z).
  { destruct (Z_le_gt_dec e3 9) as [H9|H9]; [unfold emax, prec; lia|].
    exfalso. assert (H10 : pow2 10 <= pow2 e3) by (apply pow2_le; lia).
    rewrite pow2_10 in H10. unfold SFval in Hp.
    assert (1 <= IZR (Z.pos p)) by (apply IZR_le; lia).
    pose proof (pow2_pos e3). nra. }
  apply Z.leb_le in He. rewrite He. now exists p, e3.
Qed.

Lemma Zpos_iter_xO (m d : positive) :
  Z.pos (Pos.iter xO m d) = (Z.pos m * 2 ^ Z.pos d)%Z.
Proof.
  induction d as [|d IH] using Pos.peano_ind.
  - cbn [Pos.iter]. lia.
  - rewrite Pos.iter_succ, Pos2Z.inj_xO, IH, Pos2Z.inj_succ, Z.pow_succ_r by lia.
    lia.
Qed.

(** Aligning a mantissa to a smaller exponent keeps the value. *)
Lemma shl_align_val (m : positive) (e e' : Z) :
  SFval (Z.pos (fst (shl_align m e e'))) (snd (shl_align m e e'))
  = SFval (Z.pos m) e.
Proof.
  unfold shl_align. destruct (e' - e)%Z as [|d|d] eqn:Hd; cbn [fst snd];
    try reflexivity.
  unfold SFval. rewrite Zpos_iter_xO, mult_IZR, pow2_IZR by lia.
  replace e with (Z.pos d + e')%Z by lia. rewrite pow2_add. lra.
Qed.

Lemma shl_align_snd (m : positive) (e e' : Z) :
  (e' <= e)%Z -> snd (shl_align m e e') = e'.
Proof.
  intros He. unfold shl_align. destruct (e' - e)%Z eqn:Hd; cbn [snd]; lia.
Qed.

Lemma binary_round_le (s : bool) (M : positive) (E : Z) (B : R) :
  SFval (Z.pos M) E * (1 + pow2 (-52)) + pow2 (-1074) <= B -> B < 1024 ->
  binary_round prec emax s M E = S754_zero s
  \/ exists m e,
       binary_round prec emax s M E = S754_finite s m e
       /\ SFval (Z.pos m) e <= B.
Proof.
  intros HB HB'. unfold binary_round.
  pose proof (shl_align_val M E (fexp prec emax (Z.pos (digits2_pos M) + E))) as Hv.
  destruct (shl_align M E _) as [mz ez]. cbn [fst snd] in Hv.
  apply binary_round_aux_le; [rewrite Hv; exact HB | exact HB'].
Qed.

Lemma canonical_mantissa_lt (m : positive) (e : Z) :
  canonical_mantissa prec emax m e = true -> (Z.pos m < 2 ^ 53)%Z.
Proof.
  unfold SpecFloat.canonical_mantissa. rewrite fexp64. intros Hc%Z.eqb_eq.
  pose proof (digits2_pos_bounds m) as [_ Hd].
  assert (Hle : (Z.pos (digits2_pos m) <= 53)%Z) by lia.
  apply (Z.pow_le_mono_r 2) in Hle; lia.
Qed.

Lemma SFleb_finite_same_sign (s : bool) (m1 m2 : positive) (e1 e2 : Z) :
  SFleb (S754_finite s m1 e1) (S754_finite s m2 e2) = true ->
  if s then (e2 < e1 \/ e2 = e1 /\ Z.pos m2 <= Z.pos m1)%Z
  else (e1 < e2 \/ e1 = e2 /\ Z.pos m1 <= Z.pos m2)%Z.
Proof.
  unfold SFleb, SFcompare. change (Pos.compare_cont Eq) with Pos.compare.
  destruct s.
  - destruct (Z.compare_spec e1 e2) as [Heq|Hlt|Hgt]; intros H;
      [|discriminate H|left; lia].
    right. split; [lia|].
    destruct (Pos.compare_spec m1 m2) as [Hm|Hm|Hm];
      [lia | discriminate H | lia].
  - destruct (Z.compare_spec e1 e2) as [Heq|Hlt|Hgt]; intros H;
      [|left; lia|discriminate H].
    right. split; [lia|].
    destruct (Pos.compare_spec m1 m2) as [Hm|Hm|Hm];
      [lia | lia | discriminate H].
Qed.

(** A finite number between [MINLOG] and [MAXLOG] has a magnitude of at
    most [MAXLOG]. *)
Lemma in_clamp_val (s : bool) (m : positive) (e : Z) :
  valid_binary (S754_finite s m e) = true ->
  SFleb (Prim2SF MINLOG) (S754_finite s m e) = true ->
  SFleb (S754_finite s m e) (Prim2SF MAXLOG) = true ->
  SFval (Z.pos m) e <= 6231120794008786 * pow2 (-43).
Proof.
  rewrite MINLOG_SF, MAXLOG_SF. cbn [valid_binary]. unfold SpecFloat.bounded.
  intros [Hc%canonical_mantissa_lt _]%andb_true_iff Hlo Hhi.
  assert (He : (e < -43 \/ e = -43 /\ Z.pos m <= 6231120794008786)%Z).
  { destruct s.
    - apply SFleb_finite_same_sign in Hlo. exact Hlo.
    - apply SFleb_finite_same_sign in Hhi. exact Hhi. }
  clear Hlo Hhi. unfold SFval. destruct He as [He|[-> Hm]].
  - assert (Hp : pow2 e <= pow2 (-44)) by (apply pow2_le; lia).
    replace (-44)%Z with (-43 + -1)%Z in Hp by lia. rewrite pow2_add in Hp.
    assert (H1 : pow2 (-1) = / 2) by (unfold powerRZ; simpl; lra).
    rewrite H1 in Hp. apply IZR_lt in Hc.
    change (2 ^ 53)%Z with 9007199254740992%Z in Hc.
    pose proof (pow2_pos e). pose proof (pow2_pos (-43)).
    assert (0 < IZR (Z.pos m)) by (apply IZR_lt; lia).
    assert (IZR (Z.pos m) * pow2 e <= 9007199254740992 * (pow2 (-43) * / 2)).
    { apply Rmult_le_compat; lra. }
    lra.
  - apply IZR_le in Hm. pose proof (pow2_pos (-43)).
    apply Rmult_le_compat_r; lra.
Qed.

(** [LOG2E * x] for [|x| <= MAXLOG]: a zero or a finite number of magnitude
    at most [1022.25]. *)
Lemma SFmul_LOG2E_le (s : bool) (m : positive) (e : Z) :
  SFval (Z.pos m) e <= 6231120794008786 * pow2 (-43) ->
  SF64mul (Prim2SF LOG2E) (S754_finite s m e) = S754_zero s
  \/ exists mp ep,
       SF64mul (Prim2SF LOG2E) (S754_finite s m e) = S754_finite s mp ep
       /\ SFval (Z.pos mp) ep <= 4089 / 4.
Proof.
  intros Hx. rewrite LOG2E_SF. unfold SF64mul, SFmul. cbn [xorb].
  apply binary_round_aux_le; [|lra].
  unfold SFval in *. rewrite Pos2Z.inj_mul, mult_IZR, pow2_add.
  pose proof pow2_m1074 as Hz. rewrite pow2_m52 in *. rewrite pow2_m43 in Hx.
  assert (0 < IZR (Z.pos m) * pow2 e).
  { apply Rmult_lt_0_compat; [apply IZR_lt; lia | apply pow2_pos]. }
  set (X := IZR (Z.pos m) * pow2 e) in *.
  replace (6497320848556798 * IZR (Z.pos m) * (/ 4503599627370496 * pow2 e))
    with (6497320848556798 * / 4503599627370496 * X) by (unfold X; ring).
  lra.
Qed.

Lemma half_val : SFval 4503599627370496 (-53) = / 2.
Proof. unfold SFval. rewrite pow2_m53. lra. Qed.

(** [p + 0.5] for a finite [p] of magnitude at most [1022.25]: a zero or a
    finite number of magnitude at most [1022.875]. *)
Lemma SFadd_half_le (s : bool) (mp : positive) (ep : Z) :
  SFval (Z.pos mp) ep <= 4089 / 4 ->
  (exists sz, SF64add (S754_finite s mp ep) (Prim2SF 0.5) = S754_zero sz)
  \/ exists st mt et,
       SF64add (S754_finite s mp ep) (Prim2SF 0.5) = S754_finite st mt et
       /\ SFval (Z.pos mt) et <= 8183 / 8.
Proof.
  intros Hp. rewrite half_SF. unfold SF64add, SFadd.
  set (ez := Z.min ep (-53)).
  pose proof (shl_align_val mp ep ez) as Ha.
  pose proof (shl_align_val 4503599627370496 (-53) ez) as Hh.
  rewrite shl_align_snd in Ha, Hh by lia. rewrite half_val in Hh.
  set (a := fst (shl_align mp ep ez)) in *.
  set (h := fst (shl_align 4503599627370496 (-53) ez)) in *.
  cbn [cond_Zopp]. unfold SFval in Ha, Hh.
  pose proof (pow2_pos ez) as Hez. pose proof pow2_m1074 as Hz.
  rewrite pow2_m52 in Hz.
  assert (Hsum : forall M : positive,
             (Z.pos M <= Z.pos a + Z.pos h)%Z ->
             SFval (Z.pos M) ez * (1 + pow2 (-52)) + pow2 (-1074) <= 8183 / 8).
  { intros M HM%IZR_le. rewrite plus_IZR in HM. rewrite pow2_m52.
    unfold SFval.
    assert (IZR (Z.pos M) * pow2 ez <= 4089 / 4 + / 2).
    { apply (Rmult_le_compat_r (pow2 ez)) in HM; [|lra].
      rewrite Rmult_plus_distr_r, Ha, Hh in HM. unfold SFval in Hp. lra. }
    assert (0 < IZR (Z.pos M) * pow2 ez).
    { apply Rmult_lt_0_compat; [apply IZR_lt; lia | exact Hez]. }
    lra. }
  unfold binary_normalize.
  destruct (cond_Zopp s (Z.pos a) + Z.pos h)%Z as [|M|M] eqn:HM.
  - left. exists false. reflexivity.
  - destruct (binary_round_le false M ez (8183 / 8)) as [Hr|(m & e & Hr & Hv)];
      [apply Hsum; destruct s; cbn [cond_Zopp] in HM; lia | lra | |].
    + left. exists false. exact Hr.
    + right. exists false, m, e. split; [exact Hr | exact Hv].
  - destruct (binary_round_le true M ez (8183 / 8)) as [Hr|(m & e & Hr & Hv)];
      [apply Hsum; destruct s; cbn [cond_Zopp] in HM; lia | lra | |].
    + left. exists true. exact Hr.
    + right. exists true, m, e. split; [exact Hr | exact Hv].
Qed.

Lemma SFtrunc_small (s : bool) (m : positive) (e : Z) :
  SFval (Z.pos m) e <= 8183 / 8 ->
  exists n, Double.SFtrunc (S754_finite s m e) = Some n /\ (-1022 <= n <= 1022)%Z.
Proof.
  intros Hv. cbn [Double.SFtrunc]. eexists. split; [reflexivity|].
  assert (H0 : (0 <= Z.shiftl (Z.pos m) e)%Z) by (apply Z.shiftl_nonneg; lia).
  assert (H1 : (Z.shiftl (Z.pos m) e < 1023)%Z).
  { apply lt_IZR. unfold SFval in Hv.
    destruct (Z_le_gt_dec 0 e) as [He|He].
    - rewrite Z.shiftl_mul_pow2, mult_IZR, pow2_IZR by lia. lra.
    - rewrite Z.shiftl_div_pow2 by lia.
      assert (Hd : (Z.pos m / 2 ^ (- e) * 2 ^ (- e) <= Z.pos m)%Z).
      { rewrite Z.mul_comm. apply Z.mul_div_le. lia. }
      apply IZR_le in Hd. rewrite mult_IZR, pow2_IZR in Hd by lia.
      assert (Hinv : pow2 (- e) * pow2 e = 1).
      { rewrite <- pow2_add. replace (- e + e)%Z with 0%Z by lia. reflexivity. }
      pose proof (pow2_pos e). pose proof (pow2_pos (- e)).
      set (q := IZR (Z.pos m / 2 ^ (- e))) in *.
      assert (q * pow2 (- e) * pow2 e <= IZR (Z.pos m) * pow2 e).
      { apply Rmult_le_compat_r; lra. }
      assert (q * pow2 (- e) * pow2 e = q) by (rewrite Rmult_assoc, Hinv; ring).
      lra. }
  destruct s; cbn [cond_Zopp]; lia.
Qed.

Lemma in_range_small (n : Z) :
  (-1022 <= n <= 1022)%Z -> CInt.in_range n = true.
Proof.
  intros Hn. unfold CInt.in_range.
  change CInt.INT_MIN with (-2147483648)%Z.
  change CInt.INT_MAX with 2147483647%Z.
  apply andb_true_intro. split; apply Z.leb_le; lia.
Qed.

(** For every [x] within the clamp bounds the cast in [fastexp] is defined
    and [n] lies between [-1022] and [1022]. *)
Lemma fastexp_n_in_range (x : float) :
  (MINLOG <=? x)%float = true -> (x <=? MAXLOG)%float = true ->
  exists n, fastexp_n x = Some n /\ (-1022 <= n <= 1022)%Z.
Proof.
  rewrite !FloatAxioms.leb_spec. intros Hlo Hhi.
  assert (Hgoal : exists n,
             Double.SFtrunc (SF64add (SF64mul (Prim2SF LOG2E) (Prim2SF x))
                                     (Prim2SF 0.5)) = Some n
             /\ (-1022 <= n <= 1022)%Z).
  { pose proof (Prim2SF_valid x) as Hv.
    assert (Hzero : forall sz, exists n,
               Double.SFtrunc (SF64add (S754_zero sz) (Prim2SF 0.5)) = Some n
               /\ (-1022 <= n <= 1022)%Z).
    { intros sz. exists 0%Z. split; [now destruct sz | lia]. }
    destruct (Prim2SF x) as [s|s| |s m e].
    - rewrite LOG2E_SF. apply (Hzero (xorb false s)).
    - rewrite MINLOG_SF in Hlo. rewrite MAXLOG_SF in Hhi.
      destruct s; [discriminate Hlo | discriminate Hhi].
    - discriminate Hhi.
    - pose proof (in_clamp_val s m e Hv Hlo Hhi) as Hx.
      destruct (SFmul_LOG2E_le s m e Hx) as [->|(mp & ep & -> & Hp)];
        [apply Hzero|].
      destruct (SFadd_half_le s mp ep Hp) as [[sz ->]|(st & mt & et & -> & Ht)].
      + exists 0%Z. split; [reflexivity | lia].
      + now apply SFtrunc_small. }
  destruct Hgoal as (n & Hn & Hr). exists n. split; [|exact Hr].
  unfold fastexp_n, Double.to_int. rewrite add_spec, mul_spec.
  fold SF64mul SF64add. rewrite Hn. cbn [mbind option_bind].
  now rewrite in_range_small.
Qed.

End rounding.

(** ** fastexp: the clamp *)

(** Nothing is both below [MINLOG] and above [MAXLOG]. *)
Lemma below_MINLOG_not_above_MAXLOG (x : float) :
  (x <? MINLOG)%float = true -> (MAXLOG <? x)%float = false.
Proof.
  rewrite !FloatAxioms.ltb_spec, MAXLOG_SF, MINLOG_SF.
  destruct (Prim2SF x) as [s|[|]| |[|] m e]; intros H;
    first [reflexivity | discriminate H].
Qed.

(** C1, as the claim states it, fails: at [709 > MAXLOG] the result is not
    positive infinity. *)
Lemma fastexp_above_MAXLOG_not_infinity :
  (MAXLOG <? 709)%float = true /\ fastexp 709 <> Some infinity.
Proof.
  split; [reflexivity|]. intros H.
  apply (f_equal (fun r => match r with
                           | Some v => is_infinity v
                           | None => true
                           end)) in H.
  vm_compute in H. discriminate H.
Qed.

(** C1, amended.  For every [x] above [MAXLOG], [fastexp(x)] returns the
    constant [INFINITY] of the source, which is the largest finite double
    [1.79769313486231570815E308] and lies below positive infinity; for
    every [x] below [MINLOG], [fastexp(x)] returns [0.0]. *)
Theorem fastexp_clamp (x : float) :
  ((MAXLOG <? x)%float = true -> fastexp x = Some INFINITY)
  /\ ((x <? MINLOG)%float = true -> fastexp x = Some 0%float)
  /\ Prim2SF INFINITY = S754_finite false 9007199254740991 971
  /\ is_finite INFINITY = true
  /\ (INFINITY <? infinity)%float = true.
Proof.
  split; [|split; [|split; [|split]]]; try reflexivity.
  - intros Hhi. unfold fastexp. now rewrite Hhi.
  - intros Hlo. unfold fastexp.
    now rewrite (below_MINLOG_not_above_MAXLOG x Hlo), Hlo.
Qed.

Lemma fastexp_clamp_witness :
  fastexp 800 = Some INFINITY /\ fastexp (-800) = Some 0%float.
Proof.
  split.
  - apply (fastexp_clamp 800). reflexivity.
  - apply (fastexp_clamp (-800)). reflexivity.
Defined.

(** ** fastexp: range reduction *)

(** C2 at [x = -1.0], which is within the clamp bounds.  [LOG2E * x] is
    about [-1.4427], whose nearest integer is [-1]; the code computes
    [n = (int)(-1.4427 + 0.5) = (int)(-0.9427) = 0], since the cast discards
    the fraction toward zero, and the reduced argument stays [-1.0]. *)
Theorem fastexp_n_at_minus_one :
  (MINLOG <=? -1)%float = true /\ (-1 <=? MAXLOG)%float = true
  /\ fastexp_n (-1) = Some 0%Z
  /\ round_nearest (LOG2E * -1) = Some (-1)%Z
  /\ fastexp_reduce (-1) 0 = (-1)%float.
Proof. repeat split; vm_compute; reflexivity. Qed.

(** ** fastexp: the reconstruction *)

(** Exchanging the operands of a comparison reverses its result. *)
Lemma SFcompare_antisym (x y : spec_float) :
  SFcompare y x = option_map CompOpp (SFcompare x y).
Proof.
  destruct x as [sx|sx| |sx mx ex], y as [sy|sy| |sy my ey];
    try reflexivity; try (destruct sx; reflexivity);
    try (destruct sy; reflexivity); try (destruct sx, sy; reflexivity).
  unfold SFcompare. change (Pos.compare_cont Eq) with Pos.compare.
  rewrite (Z.compare_antisym ex ey), (Pos.compare_antisym mx my).
  destruct sx, sy; try reflexivity;
    destruct (ex ?= ey)%Z; try reflexivity; cbn [CompOpp option_map];
    now destruct (mx ?= my)%positive.
Qed.

(** Within the clamp bounds neither test of the clamp fires. *)
Lemma in_clamp_tests (x : float) :
  (MINLOG <=? x)%float = true -> (x <=? MAXLOG)%float = true ->
  (MAXLOG <? x)%float = false /\ (x <? MINLOG)%float = false.
Proof.
  rewrite !FloatAxioms.leb_spec, !FloatAxioms.ltb_spec.
  unfold SFleb, SFltb.
  rewrite (SFcompare_antisym (Prim2SF x) (Prim2SF MAXLOG)).
  rewrite (SFcompare_antisym (Prim2SF MINLOG) (Prim2SF x)).
  destruct (SFcompare (Prim2SF x) (Prim2SF MAXLOG)) as [[| |]|];
    destruct (SFcompare (Prim2SF MINLOG) (Prim2SF x)) as [[| |]|];
    cbn [option_map CompOpp]; intros H1 H2;
    first [discriminate H1 | discriminate H2 | split; reflexivity].
Qed.

Lemma union_fields_all :
  forallb union_fields_ok (map Z.of_nat (seq 0 2048)) = true.
Proof. vm_compute. reflexivity. Qed.

Lemma fastexp_union_fields (n : Z) :
  (0 <= n + 1023 < 2048)%Z ->
  let b := Double.le_combine (fastexp_union n) in
  b = Z.shiftl (n + 1023) 52
  /\ Z.testbit b 63 = false
  /\ Z.land (Z.shiftr b 52) 2047 = (n + 1023)%Z
  /\ Z.land b (2 ^ 52 - 1) = 0%Z.
Proof.
  intros Hn. pose proof union_fields_all as Hall.
  rewrite forallb_forall in Hall.
  specialize (Hall (n + 1023)%Z).
  unfold union_fields_ok in Hall. rewrite Z.add_simpl_r in Hall. cbv zeta.
  set (b := Double.le_combine (fastexp_union n)) in *.
  assert (Hin : In (n + 1023)%Z (map Z.of_nat (seq 0 2048))).
  { apply in_map_iff. exists (Z.to_nat (n + 1023)). split; [lia|].
    apply in_seq. lia. }
  apply Hall in Hin.
  apply andb_true_iff in Hin as [Hin H4]. apply andb_true_iff in Hin as [Hin H3].
  apply andb_true_iff in Hin as [H1 H2].
  apply Z.eqb_eq in H1, H3, H4. apply negb_true_iff in H2. now repeat split.
Qed.

(** For a normal exponent the reinterpreted pattern is exactly [2^n]. *)
Lemma fastexp_union_value (n : Z) :
  (0 < n + 1023 < 2047)%Z ->
  Prim2SF (Double.of_bytes (fastexp_union n))
  = S754_finite false 4503599627370496 (n - 52).
Proof.
  intros Hn. destruct (fastexp_union_fields n) as (_ & Hs & He & Hf); [lia|].
  unfold Double.of_bytes, Double.of_bits.
  assert (Hb : Double.bits_to_SF (Double.le_combine (fastexp_union n))
               = S754_finite false 4503599627370496 (n - 52)).
  { unfold Double.bits_to_SF. cbv zeta. rewrite Hs, He, Hf.
    destruct (Z.eqb_spec (n + 1023) 0) as [H0|_]; [lia|].
    destruct (Z.eqb_spec (n + 1023) 2047) as [H0|_]; [lia|].
    change (0 + 2 ^ 52)%Z with (Z.pos 4503599627370496).
    cbv iota beta. f_equal. lia. }
  rewrite Hb. apply Prim2SF_SF2Prim.
  cbn [valid_binary]. unfold SpecFloat.bounded, SpecFloat.canonical_mantissa.
  change (digits2_pos 4503599627370496) with 53%positive.
  rewrite fexp64. apply andb_true_intro. split.
  - apply Z.eqb_eq. lia.
  - apply Z.leb_le. change (emax - prec)%Z with 971%Z. lia.
Qed.

(** C4. For every [x] within the clamp bounds, [fastexp] returns
    [(1 + 2r) * 2^n], where [n] is the integer of the range reduction,
    [r = P / (Q - P)] is the rational approximation at the reduced argument,
    and the factor is read back from the bytes of the union [u].  Those
    bytes hold the pattern with sign [0], biased exponent field [n + 1023]
    (which is a normal exponent, strictly between [0] and [2047]) and zero
    mantissa, and the double they represent is exactly [2^n]. *)
Theorem fastexp_reconstruction (x : float) :
  (MINLOG <=? x)%float = true -> (x <=? MAXLOG)%float = true ->
  exists n : Z,
    fastexp_n x = Some n
    /\ (0 < n + 1023 < 2047)%Z
    /\ (let x' := fastexp_reduce x n in
        let r := (fastexp_P x' / (fastexp_Q x' - fastexp_P x'))%float in
        fastexp x
        = Some ((1 + 2 * r) * Double.of_bytes (fastexp_union n))%float)
    /\ (let b := Double.le_combine (fastexp_union n) in
        b = Z.shiftl (n + 1023) 52
        /\ Z.testbit b 63 = false
        /\ Z.land (Z.shiftr b 52) 2047 = (n + 1023)%Z
        /\ Z.land b (2 ^ 52 - 1) = 0%Z)
    /\ Prim2SF (Double.of_bytes (fastexp_union n))
       = S754_finite false 4503599627370496 (n - 52).
Proof.
  intros Hlo Hhi.
  destruct (fastexp_n_in_range x Hlo Hhi) as (n & Hn & Hr).
  destruct (in_clamp_tests x Hlo Hhi) as [Hmax Hmin].
  exists n. split; [exact Hn|]. split; [lia|]. split; [|split].
  - cbv zeta. unfold fastexp. rewrite Hmax, Hmin, Hn. reflexivity.
  - apply fastexp_union_fields. lia.
  - apply fastexp_union_value. lia.
Qed.

Lemma fastexp_reconstruction_witness :
  exists n : Z,
    fastexp_n 1 = Some n
    /\ (0 < n + 1023 < 2047)%Z
    /\ (let x' := fastexp_reduce 1 n in
        let r := (fastexp_P x' / (fastexp_Q x' - fastexp_P x'))%float in
        fastexp 1
        = Some ((1 + 2 * r) * Double.of_bytes (fastexp_union n))%float)
    /\ (let b := Double.le_combine (fastexp_union n) in
        b = Z.shiftl (n + 1023) 52
        /\ Z.testbit b 63 = false
        /\ Z.land (Z.shiftr b 52) 2047 = (n + 1023)%Z
        /\ Z.land b (2 ^ 52 - 1) = 0%Z)
    /\ Prim2SF (Double.of_bytes (fastexp_union n))
       = S754_finite false 4503599627370496 (n - 52).
Proof. apply (fastexp_reconstruction 1); reflexivity. Defined.

(** ** fastexp is defined on every number *)

Lemma is_nan_SF (x : float) : is_nan x = false -> Prim2SF x <> S754_nan.
Proof.
  unfold is_nan. rewrite FloatAxioms.eqb_spec. intros H Hx.
  rewrite Hx in H. discriminate H.
Qed.

Lemma SFcompare_Some (x y : spec_float) :
  x <> S754_nan -> y <> S754_nan -> exists c, SFcompare x y = Some c.
Proof.
  intros Hx Hy.
  destruct x as [sx|sx| |sx mx ex], y as [sy|sy| |sy my ey];
    try congruence; eexists; reflexivity.
Qed.

(** For numbers, [not (y < x)] gives [x <= y]. *)
Lemma float_not_ltb_leb (x y : float) :
  is_nan x = false -> is_nan y = false ->
  (y <? x)%float = false -> (x <=? y)%float = true.
Proof.
  intros Hx%is_nan_SF Hy%is_nan_SF.
  rewrite FloatAxioms.leb_spec, FloatAxioms.ltb_spec. unfold SFleb, SFltb.
  rewrite (SFcompare_antisym (Prim2SF x) (Prim2SF y)).
  destruct (SFcompare_Some _ _ Hx Hy) as [c ->].
  now destruct c.
Qed.

(** [fastexp] returns for every argument that is not NaN. *)
Lemma fastexp_defined (x : float) : is_nan x = false -> is_Some (fastexp x).
Proof.
  intros Hx. unfold fastexp.
  destruct (MAXLOG <? x)%float eqn:Hmax; [now eexists|].
  destruct (x <? MINLOG)%float eqn:Hmin; [now eexists|].
  destruct (fastexp_n_in_range x) as (n & -> & _).
  - now apply float_not_ltb_leb.
  - now apply float_not_ltb_leb.
  - now eexists.
Qed.

(** ** The reductions *)

(** C6. For all buffers [x], [y] (anywhere in memory, overlapping or not)
    and every length [n], [vecdot(x, y, n)] and [vecdot(y, x, n)] give the
    same outcome: the same value (the same number, or NaN for both) when the
    buffers are readable, and a failure for both otherwise. *)
Theorem vecdot_comm (m : mem) (x y : ptr) (n : Z) :
  vecdot x y n m = vecdot y x n m.
Proof.
  unfold vecdot, for_to. apply for_range_ext. clear. intros i s m.
  rewrite !bind_load.
  destruct (m !! (x + i)) as [xi|] eqn:Hx, (m !! (y + i)) as [yi|] eqn:Hy;
    rewrite ?bind_load, ?Hx, ?Hy; try reflexivity.
  now rewrite (float_mul_comm xi yi).
Qed.

Section reductions.
Local Open Scope float_scope.
Variable log : float -> float.
Variables (m : mem) (x y : ptr) (n : Z).
Variables X Y : nat -> float.

(** [x[i]] is [X i] and [y[i]] is [Y i], for [i < n]. *)
Hypothesis Hx : forall i, (i < Z.to_nat n)%nat -> m !! (x + i)%nat = Some (X i).
Hypothesis Hy : forall i, (i < Z.to_nat n)%nat -> m !! (y + i)%nat = Some (Y i).

Lemma vecdot_fold :
  vecdot x y n m =
  Some (foldl (fun s i => s + X i * Y i) 0 (seq 0 (Z.to_nat n)), m).
Proof using Hx Hy.
  unfold vecdot, for_to. apply for_range_pure. intros j s Hj.
  rewrite bind_load, Hx, bind_load, Hy by lia. reflexivity.
Qed.

Lemma vecsum_fold :
  vecsum x n m = Some (foldl (fun s i => s + X i) 0 (seq 0 (Z.to_nat n)), m).
Proof using Hx.
  unfold vecsum, for_to. apply for_range_pure. intros j s Hj.
  rewrite bind_load, Hx by lia. reflexivity.
Qed.

Lemma vecsumlog_fold :
  vecsumlog log x n m =
  Some (foldl (fun s i => s + log (X i)) 0 (seq 0 (Z.to_nat n)), m).
Proof using Hx.
  unfold vecsumlog, for_to. apply for_range_pure. intros j s Hj.
  rewrite bind_load, Hx by lia. reflexivity.
Qed.

End reductions.

Lemma cells_lookup (m : mem) (x : ptr) (k i : nat) :
  (x + k <= length m)%nat -> (i < k)%nat ->
  m !! (x + i)%nat = Some (cells m x i).
Proof.
  intros Hk Hi. unfold cells.
  destruct (lookup_lt_is_Some_2 m (x + i)%nat) as [v ->]; [lia | reflexivity].
Qed.

(** C5. The three reductions accumulate from left to right.  Let the buffers
    hold [x[i] = X i] and [y[i] = Y i] for [i < n].  Then [vecdot], [vecsum]
    and [vecsumlog] return the left fold, over the indices [0, 1, ..., n-1]
    in increasing order and from the accumulator [0], of [s + x[i] * y[i]],
    of [s + x[i]] and of [s + log(x[i])]. *)
Theorem reductions_fold_in_index_order
    (log : float -> float) (m : mem) (x y : ptr) (n : Z) (X Y : nat -> float) :
  (forall i, (i < Z.to_nat n)%nat -> m !! (x + i)%nat = Some (X i)) ->
  (forall i, (i < Z.to_nat n)%nat -> m !! (y + i)%nat = Some (Y i)) ->
  vecdot x y n m =
    Some (foldl (fun s i => s + X i * Y i)%float 0%float (seq 0 (Z.to_nat n)), m)
  /\ vecsum x n m =
    Some (foldl (fun s i => s + X i)%float 0%float (seq 0 (Z.to_nat n)), m)
  /\ vecsumlog log x n m =
    Some (foldl (fun s i => s + log (X i))%float 0%float (seq 0 (Z.to_nat n)), m).
Proof.
  intros Hx Hy. split; [|split].
  - now apply vecdot_fold.
  - now apply vecsum_fold.
  - now apply vecsumlog_fold.
Qed.

Lemma reductions_fold_in_index_order_witness :
  vecdot 0 0 3 [1; 2; 3]%float = Some (1 * 1 + 2 * 2 + 3 * 3, [1; 2; 3])%float
  /\ vecsum 0 3 [1; 2; 3]%float = Some (1 + 2 + 3, [1; 2; 3])%float
  /\ vecsumlog PrimFloat.sqrt 0 3 [1; 4; 9]%float = Some (1 + 2 + 3, [1; 4; 9])%float.
Proof.
  pose proof (reductions_fold_in_index_order PrimFloat.sqrt [1; 2; 3]%float 0 0 3
                (cells [1; 2; 3]%float 0) (cells [1; 2; 3]%float 0)) as H1.
  pose proof (reductions_fold_in_index_order PrimFloat.sqrt [1; 4; 9]%float 0 0 3
                (cells [1; 4; 9]%float 0) (cells [1; 4; 9]%float 0)) as H2.
  destruct H1 as (Hdot & Hsum & _);
    try (intros i Hi; apply (cells_lookup _ 0 3); simpl in *; lia).
  destruct H2 as (_ & _ & Hlog);
    try (intros i Hi; apply (cells_lookup _ 0 3); simpl in *; lia).
  split; [|split].
  - rewrite Hdot. vm_compute. reflexivity.
  - rewrite Hsum. vm_compute. reflexivity.
  - rewrite Hlog. vm_compute. reflexivity.
Defined.

(** C10. The reductions only read.  Whenever [vecdot], [vecsum] or
    [vecsumlog] returns, the memory after the call is the memory before it:
    every [x[i]] and [y[i]] (and every other cell) has the value it had.
    And each of them returns when the buffers it is given lie inside the
    arena. *)
Theorem reductions_leave_memory_unchanged
    (log : float -> float) (m : mem) (x y : ptr) (n : Z) :
  (forall s m', vecdot x y n m = Some (s, m') -> m' = m)
  /\ (forall s m', vecsum x n m = Some (s, m') -> m' = m)
  /\ (forall s m', vecsumlog log x n m = Some (s, m') -> m' = m)
  /\ ((x + Z.to_nat n <= length m)%nat -> (y + Z.to_nat n <= length m)%nat ->
      (exists s, vecdot x y n m = Some (s, m))
      /\ (exists s, vecsum x n m = Some (s, m))
      /\ (exists s, vecsumlog log x n m = Some (s, m))).
Proof.
  split; [|split; [|split]].
  - intros s m'. unfold vecdot, for_to. apply for_range_frame. clear.
    intros i a. apply load_then_ret_frame. intros xi.
    apply load_then_ret_frame. intros yi. apply ret_frame.
  - intros s m'. unfold vecsum, for_to. apply for_range_frame. clear.
    intros i a. apply load_then_ret_frame. intros xi. apply ret_frame.
  - intros s m'. unfold vecsumlog, for_to. apply for_range_frame. clear.
    intros i a. apply load_then_ret_frame. intros xi. apply ret_frame.
  - intros Hx Hy.
    pose proof (fun i => cells_lookup m x (Z.to_nat n) i Hx) as HX.
    pose proof (fun i => cells_lookup m y (Z.to_nat n) i Hy) as HY.
    split; [|split]; eexists.
    + now apply (vecdot_fold m x y n (cells m x) (cells m y)).
    + now apply (vecsum_fold m x n (cells m x)).
    + now apply (vecsumlog_fold log m x n (cells m x)).
Qed.

Lemma reductions_leave_memory_unchanged_witness :
  (forall s m', vecdot 1 0 2 [1; 2; 3]%float = Some (s, m') ->
     m' = [1; 2; 3]%float)
  /\ (exists s, vecdot 1 0 2 [1; 2; 3]%float = Some (s, [1; 2; 3]%float))
  /\ (exists s, vecsum 1 2 [1; 2; 3]%float = Some (s, [1; 2; 3]%float))
  /\ (exists s,
        vecsumlog PrimFloat.sqrt 1 2 [1; 2; 3]%float
        = Some (s, [1; 2; 3]%float)).
Proof.
  destruct (reductions_leave_memory_unchanged
              PrimFloat.sqrt [1; 2; 3]%float 1 0 2) as (Hdot & _ & _ & Hret).
  split; [exact Hdot|]. apply Hret; simpl; lia.
Defined.

(** ** Loops that write *)

(** A loop that stores the same value [v] at [p + i], ..., [p + i + k - 1]. *)
Lemma for_range_store_const (p : ptr) (v : float) (k : nat) :
  forall (i : nat) (m : mem),
    (p + i + k <= length m)%nat ->
    exists m',
      for_range i k (fun j _ => store (p + j) v) tt m = Some (tt, m')
      /\ length m' = length m
      /\ (forall q, (p + i <= q < p + i + k)%nat -> m' !! q = Some v)
      /\ (forall q, (q < p + i \/ p + i + k <= q)%nat -> m' !! q = m !! q).
Proof.
  induction k as [|k IH]; intros i m Hlen.
  - exists m. split; [reflexivity|]. split; [reflexivity|].
    split; [intros q Hq; lia | reflexivity].
  - rewrite for_range_S, store_Some by lia.
    destruct (IH (S i) (<[(p + i)%nat := v]> m)) as (m' & Hrun & Hl & Hin & Hout).
    { rewrite length_insert. lia. }
    exists m'. rewrite Hl, length_insert.
    split; [exact Hrun|]. split; [reflexivity|]. split.
    + intros q Hq. destruct (decide (q = p + i)%nat) as [->|Hne].
      * rewrite Hout by lia. apply list_lookup_insert_eq. lia.
      * apply Hin. lia.
    + intros q Hq. rewrite Hout by lia. apply list_lookup_insert_ne. lia.
Qed.

Lemma veczero_value : Double.of_bytes (replicate 8 (CInt.to_uchar 0)) = 0%float.
Proof. vm_compute. reflexivity. Qed.

(** C8. For every length [0 <= n] (an [int]) and every buffer [x] of at
    least [n] cells, [veczero(x, n)] returns, and afterwards each of the
    first [n] cells of [x] is [0.0] (the value whose bytes are all zero);
    the cells outside the buffer keep their values. *)
Theorem veczero_zeroes (m : mem) (x : ptr) (n : Z) :
  (0 <= n <= CInt.INT_MAX)%Z ->
  (x + Z.to_nat n <= length m)%nat ->
  exists m',
    veczero x n m = Some (tt, m')
    /\ length m' = length m
    /\ (forall i, (i < Z.to_nat n)%nat -> m' !! (x + i)%nat = Some 0%float)
    /\ (forall q, (q < x \/ x + Z.to_nat n <= q)%nat -> m' !! q = m !! q).
Proof.
  intros Hn Hlen. unfold veczero, memset, for_to, size_t_wrap, sizeof_floatval_t.
  rewrite veczero_value.
  assert (Hk : ((8 * n) mod 2 ^ 64 / 8 = n)%Z).
  { unfold CInt.INT_MAX in Hn. rewrite Z.mod_small by lia.
    rewrite Z.mul_comm. apply Z.div_mul. lia. }
  rewrite Hk.
  destruct (for_range_store_const x 0%float (Z.to_nat n) 0 m)
    as (m' & Hrun & Hl & Hin & Hout); [lia|].
  exists m'. split; [exact Hrun|]. split; [exact Hl|]. split.
  - intros i Hi. apply Hin. lia.
  - intros q Hq. apply Hout. lia.
Qed.

Lemma veczero_zeroes_witness :
  exists m',
    veczero 1 2 [1; 2; 3; 4]%float = Some (tt, m')
    /\ length m' = 4%nat
    /\ (forall i, (i < 2)%nat -> m' !! (1 + i)%nat = Some 0%float)
    /\ (forall q, (q < 1 \/ 3 <= q)%nat -> m' !! q = [1; 2; 3; 4]%float !! q).
Proof.
  apply (veczero_zeroes [1; 2; 3; 4]%float 1 2); vm_compute; [|lia].
  split; discriminate.
Defined.

(** ** vecexp *)

Section vecexp_loop.
Variable exp_fn : float -> option float.
Variable x : ptr.

(** What [vecexp] puts in a cell that held [v]. *)
Let elem (v : float) : option float :=
  if (v =? 0)%float then Some 1%float else exp_fn v.

Let body : nat -> unit -> M unit := fun i _ =>
  xi ← load (x + i);
  v ← (if (xi =? 0)%float then mret 1%float else lift (exp_fn xi));
  store (x + i) v.

Lemma vecexp_body_run (i : nat) (m : mem) (v : float) :
  m !! (x + i)%nat = Some v ->
  body i tt m =
  match elem v with
  | Some w => Some (tt, <[(x + i)%nat := w]> m)
  | None => None
  end.
Proof.
  intros Hv. unfold body, elem. rewrite bind_load, Hv, bind_unfold.
  apply lookup_lt_Some in Hv.
  destruct (v =? 0)%float; cbn.
  - now apply store_Some.
  - destruct (exp_fn v) as [w|]; cbn; [now apply store_Some | reflexivity].
Qed.

(** When the loop returns, every cell of the range holds the image of its
    old value and every other cell is as before. *)
Lemma vecexp_loop_result (k : nat) :
  forall (i : nat) (m m' : mem),
    (x + i + k <= length m)%nat ->
    for_range i k body tt m = Some (tt, m') ->
    length m' = length m
    /\ (forall j v, (i <= j < i + k)%nat -> m !! (x + j)%nat = Some v ->
          m' !! (x + j)%nat = elem v)
    /\ (forall q, (q < x + i \/ x + i + k <= q)%nat -> m' !! q = m !! q).
Proof.
  induction k as [|k IH]; intros i m m' Hlen Hrun.
  - injection Hrun as <-. split; [reflexivity|]. split; [intros; lia | reflexivity].
  - rewrite for_range_S in Hrun.
    destruct (lookup_lt_is_Some_2 m (x + i)%nat) as [v Hv]; [lia|].
    rewrite (vecexp_body_run _ _ _ Hv) in Hrun.
    destruct (elem v) as [w|] eqn:Hw; [|discriminate].
    apply IH in Hrun as (Hl & Hin & Hout); [|rewrite length_insert; lia].
    rewrite length_insert in Hl. split; [exact Hl|]. split.
    + intros j v' Hj Hv'. destruct (decide (j = i)) as [->|Hne].
      * rewrite Hout by lia. rewrite list_lookup_insert_eq by lia.
        congruence.
      * apply Hin; [lia|]. rewrite list_lookup_insert_ne by lia. exact Hv'.
    + intros q Hq. rewrite Hout by lia. apply list_lookup_insert_ne. lia.
Qed.

(** The loop returns when the buffer lies in the arena and the exponential
    is defined at every cell that is not a zero. *)
Lemma vecexp_loop_returns (k : nat) :
  forall (i : nat) (m : mem),
    (x + i + k <= length m)%nat ->
    (forall j v, (i <= j < i + k)%nat -> m !! (x + j)%nat = Some v ->
       is_Some (elem v)) ->
    exists m', for_range i k body tt m = Some (tt, m').
Proof.
  induction k as [|k IH]; intros i m Hlen Hdef; [now exists m|].
  rewrite for_range_S.
  destruct (lookup_lt_is_Some_2 m (x + i)%nat) as [v Hv]; [lia|].
  rewrite (vecexp_body_run _ _ _ Hv).
  destruct (Hdef i v) as [w ->]; [lia | exact Hv |].
  apply IH; [rewrite length_insert; lia|].
  intros j v' Hj Hv'. apply (Hdef j); [lia|].
  rewrite list_lookup_insert_ne in Hv' by lia. exact Hv'.
Qed.

End vecexp_loop.

Lemma vecexp_returns (m : mem) (x : ptr) (n : Z) :
  (x + Z.to_nat n <= length m)%nat -> no_nan m x n ->
  exists m', vecexp x n m = Some (tt, m').
Proof.
  intros Hlen Hnum. unfold vecexp, vecexp_with, for_to.
  apply vecexp_loop_returns; [lia|].
  intros j v Hj Hv. destruct (v =? 0)%float; [now eexists|].
  apply fastexp_defined, (Hnum j); [lia | exact Hv].
Qed.

Lemma vecexp_result (m m' : mem) (x : ptr) (n : Z) :
  (x + Z.to_nat n <= length m)%nat ->
  vecexp x n m = Some (tt, m') ->
  forall i v, (i < Z.to_nat n)%nat -> m !! (x + i)%nat = Some v ->
    m' !! (x + i)%nat = if (v =? 0)%float then Some 1%float else fastexp v.
Proof.
  intros Hlen Hrun i v Hi Hv. unfold vecexp, vecexp_with, for_to in Hrun.
  apply vecexp_loop_result in Hrun as (_ & Hin & _); [|lia].
  apply Hin; [lia | exact Hv].
Qed.

Lemma Some_is_nan (o : option float) (v : float) :
  o = Some v -> is_nan v = match o with Some u => is_nan u | None => true end.
Proof. now intros ->. Qed.

(** C3. Let [x] be a buffer of [n] cells.  Whenever [vecexp(x, n)] returns,
    for every [i < n] the new [x[i]] is exactly [1.0] when the old [x[i]]
    compares equal to [0], and is [fastexp] of the old [x[i]] otherwise.
    It returns when no cell is NaN (the integer conversion in [fastexp] is
    undefined for NaN).  In particular, on a buffer of zeros it returns and
    every new [x[i]] is exactly [1.0]. *)
Theorem vecexp_elementwise (m : mem) (x : ptr) (n : Z) :
  (x + Z.to_nat n <= length m)%nat ->
  (forall m', vecexp x n m = Some (tt, m') ->
     forall i v, (i < Z.to_nat n)%nat -> m !! (x + i)%nat = Some v ->
       m' !! (x + i)%nat = if (v =? 0)%float then Some 1%float else fastexp v)
  /\ (no_nan m x n -> exists m', vecexp x n m = Some (tt, m'))
  /\ ((forall i, (i < Z.to_nat n)%nat -> m !! (x + i)%nat = Some 0%float) ->
      exists m',
        vecexp x n m = Some (tt, m')
        /\ forall i, (i < Z.to_nat n)%nat -> m' !! (x + i)%nat = Some 1%float).
Proof.
  intros Hlen. split; [|split].
  - intros m' Hrun. now apply vecexp_result.
  - now apply vecexp_returns.
  - intros Hzero. destruct (vecexp_returns m x n Hlen) as [m' Hrun].
    { intros i v Hi Hv. rewrite Hzero in Hv by exact Hi.
      now rewrite (Some_is_nan _ _ Hv). }
    exists m'. split; [exact Hrun|]. intros i Hi.
    now rewrite (vecexp_result m m' x n Hlen Hrun i 0%float Hi (Hzero i Hi)).
Qed.

Lemma vecexp_elementwise_witness :
  (forall m', vecexp 0 3 [0; 1; -0]%float = Some (tt, m') ->
     forall i v, (i < 3)%nat -> [0; 1; -0]%float !! (0 + i)%nat = Some v ->
       m' !! (0 + i)%nat = if (v =? 0)%float then Some 1%float else fastexp v)
  /\ (exists m', vecexp 0 3 [0; 1; -0]%float = Some (tt, m'))
  /\ (exists m',
        vecexp 1 2 [5; 0; 0]%float = Some (tt, m')
        /\ forall i, (i < 2)%nat -> m' !! (1 + i)%nat = Some 1%float).
Proof.
  split; [|split].
  - apply (vecexp_elementwise [0; 1; -0]%float 0 3). simpl. lia.
  - apply (vecexp_elementwise [0; 1; -0]%float 0 3); [simpl; lia|].
    intros [|[|[|i]]] v Hi Hv; simpl in Hi, Hv; try lia;
      now rewrite (Some_is_nan _ _ Hv).
  - apply (vecexp_elementwise [5; 0; 0]%float 1 2); [simpl; lia|].
    intros [|[|i]] Hi; simpl in Hi; try lia; reflexivity.
Defined.

(** [vecexp] calls its exponential at no cell that holds a zero of either
    sign: exchanging the exponential for one that differs only at [-0.0]
    changes nothing. *)
Lemma vecexp_with_ext_except_neg_zero (f g : float -> option float) :
  (forall v, v <> neg_zero -> f v = g v) ->
  forall (m : mem) (x : ptr) (n : Z), vecexp_with f x n m = vecexp_with g x n m.
Proof.
  intros Hfg m x n. unfold vecexp_with, for_to. apply for_range_ext.
  clear m. intros i [] m. rewrite !bind_load.
  destruct (m !! (x + i)%nat) as [v|]; [|reflexivity].
  destruct (v =? 0)%float eqn:Hz; [reflexivity|].
  rewrite Hfg; [reflexivity|]. intros ->. discriminate Hz.
Qed.

(** C9. When [x[i]] is [-0.0], for an [i < n], [vecexp(x, n)] sets it to
    exactly [1.0] whenever it returns, because the comparison [x[i] == 0.]
    holds for [-0.0]; and it returns when no cell is NaN.  [-0.0] is never
    passed to [fastexp]: [vecexp] behaves the same with any function in the
    place of [fastexp] that agrees with it everywhere but at [-0.0]. *)
Theorem vecexp_negative_zero (m : mem) (x : ptr) (n : Z) (i : nat) :
  (x + Z.to_nat n <= length m)%nat ->
  (i < Z.to_nat n)%nat ->
  m !! (x + i)%nat = Some neg_zero ->
  (neg_zero =? 0)%float = true
  /\ (forall m', vecexp x n m = Some (tt, m') ->
        m' !! (x + i)%nat = Some 1%float)
  /\ (no_nan m x n -> exists m', vecexp x n m = Some (tt, m'))
  /\ (forall f, (forall v, v <> neg_zero -> f v = fastexp v) ->
        vecexp_with f x n m = vecexp x n m).
Proof.
  intros Hlen Hi Hcell. split; [reflexivity|]. split; [|split].
  - intros m' Hrun.
    now rewrite (vecexp_result m m' x n Hlen Hrun i neg_zero Hi Hcell).
  - now apply vecexp_returns.
  - intros f Hf. unfold vecexp. now apply vecexp_with_ext_except_neg_zero.
Qed.

Lemma vecexp_negative_zero_witness :
  (neg_zero =? 0)%float = true
  /\ (forall m', vecexp 0 2 [1; neg_zero]%float = Some (tt, m') ->
        m' !! (0 + 1)%nat = Some 1%float)
  /\ (exists m', vecexp 0 2 [1; neg_zero]%float = Some (tt, m'))
  /\ (forall f, (forall v, v <> neg_zero -> f v = fastexp v) ->
        vecexp_with f 0 2 [1; neg_zero]%float = vecexp 0 2 [1; neg_zero]%float).
Proof.
  destruct (vecexp_negative_zero [1; neg_zero]%float 0 2 1)
    as (H0 & Hone & Hret & Hext); [simpl; lia | simpl; lia | reflexivity |].
  split; [exact H0|]. split; [exact Hone|]. split; [|exact Hext].
  apply Hret. intros [|[|j]] v Hj Hv; simpl in Hj, Hv; try lia;
    now rewrite (Some_is_nan _ _ Hv).
Defined.

(** ** vecaadd *)

(** C7, as the claim states it, fails: with [a = 0] and an infinite [x[0]],
    [vecaadd] turns [y[0] = 1.0] into NaN. *)
Lemma vecaadd_zero_not_noop :
  vecaadd 0 0 1 1 [1; infinity]%float <> Some (tt, [1; infinity]%float).
Proof.
  intros H.
  apply (f_equal (fun r => match r with
                           | Some (_, v :: _) => (v =? v)%float
                           | _ => true
                           end)) in H.
  vm_compute in H. discriminate H.
Qed.

(** C7, amended.  [vecaadd(y, 1, x, n)] does to the memory exactly what
    [vecadd(y, x, n)] does, for all buffers and lengths.
    [vecaadd(y, 0, x, n)] leaves the memory as it is when, for [i < n],
    every [x[i]] is finite and no [y[i]] is [-0.0]. *)
Theorem vecaadd_one_and_zero (m : mem) (y x : ptr) (n : Z) :
  vecaadd y 1 x n m = vecadd y x n m
  /\ ((forall i, (i < Z.to_nat n)%nat ->
         exists yi xi, m !! (y + i)%nat = Some yi /\ m !! (x + i)%nat = Some xi
                       /\ is_finite xi = true /\ yi <> neg_zero) ->
      vecaadd y 0 x n m = Some (tt, m)).
Proof.
  split.
  - unfold vecaadd, vecadd, for_to. apply for_range_ext. clear m.
    intros i [] m. rewrite !bind_load.
    destruct (m !! (y + i)%nat) as [yi|]; [|reflexivity].
    rewrite !bind_load.
    destruct (m !! (x + i)%nat) as [xi|]; [|reflexivity].
    now rewrite float_mul_1_l.
  - intros Hcells. unfold vecaadd, for_to.
    rewrite (for_range_pure _ (fun a _ => a) m).
    + now destruct (foldl _ _ _).
    + intros j [] Hj. destruct (Hcells j) as (yi & xi & Hy & Hx & Hfin & Hnz); [lia|].
      rewrite bind_load, Hy, bind_load, Hx, float_add_0_mul by assumption.
      rewrite store_Some by (eapply lookup_lt_Some, Hy).
      now rewrite list_insert_id.
Qed.

Lemma vecaadd_one_and_zero_witness :
  vecaadd 0 1 2 2 [1; 2; 3; 4]%float = vecadd 0 2 2 [1; 2; 3; 4]%float
  /\ vecaadd 0 0 2 2 [1; 2; 3; 4]%float = Some (tt, [1; 2; 3; 4]%float).
Proof.
  destruct (vecaadd_one_and_zero [1; 2; 3; 4]%float 0 2 2) as [H1 H0].
  split; [exact H1|]. apply H0.
  intros [|[|i]] Hi; simpl in Hi; try lia.
  - exists 1%float, 3%float. repeat split. apply float_neq_by_SF.
    vm_compute. discriminate.
  - exists 2%float, 4%float. repeat split. apply float_neq_by_SF.
    vm_compute. discriminate.
Defined.

(** * Further properties *)

(** ** More facts of binary64 arithmetic *)

Lemma float_mul_1_r (v : float) : (v * 1 = v)%float.
Proof. rewrite float_mul_comm. apply float_mul_1_l. Qed.

(** The sign given to [binary_round_aux] only decides the sign of its
    result. *)
Lemma binary_round_aux_opp (s : bool) (m e : Z) (l : location) :
  SFopp (binary_round_aux prec emax s m e l)
  = binary_round_aux prec emax (negb s) m e l.
Proof.
  unfold binary_round_aux.
  destruct (shr_fexp prec emax m e l) as [mrs' e'].
  destruct (shr_fexp prec emax _ e' loc_Exact) as [mrs'' e''].
  destruct (shr_m mrs'') as [|p|p]; try reflexivity.
  now destruct (e'' <=? emax - prec)%Z.
Qed.

(** [(-a) * x] is [-(a * x)]. *)
Lemma float_opp_mul (a x : float) : (- a * x = - (a * x))%float.
Proof.
  apply Prim2SF_inj. rewrite opp_spec, !mul_spec, opp_spec.
  destruct (Prim2SF a) as [sa|sa| |sa ma ea], (Prim2SF x) as [sx|sx| |sx mx ex];
    try reflexivity; cbn [SFopp SF64mul SFmul];
    try (now destruct sa, sx).
  rewrite binary_round_aux_opp. now destruct sa, sx.
Qed.

(** [y - z] is [y + (-z)]. *)
Lemma float_sub_add_opp (y z : float) : (y - z = y + - z)%float.
Proof.
  apply Prim2SF_inj. rewrite sub_spec, add_spec, opp_spec.
  destruct (Prim2SF y) as [sy|sy| |sy my ey], (Prim2SF z) as [sz|sz| |sz mz ez];
    try reflexivity; cbn [SFopp SF64sub SFsub SF64add SFadd];
    now destruct sy, sz.
Qed.

Lemma is_nan_true_SF (x : float) : is_nan x = true -> Prim2SF x = S754_nan.
Proof.
  unfold is_nan. rewrite FloatAxioms.eqb_spec. unfold SFeqb, SFcompare.
  change (Pos.compare_cont Eq) with Pos.compare.
  destruct (Prim2SF x) as [s|[|]| |[|] m e]; try reflexivity; try discriminate;
    rewrite Z.compare_refl, Pos.compare_refl; discriminate.
Qed.

Lemma SF_nan_is_nan (x : float) : Prim2SF x = S754_nan -> is_nan x = true.
Proof.
  intros Hx. unfold is_nan. rewrite FloatAxioms.eqb_spec, Hx. reflexivity.
Qed.

(** A NaN operand makes the sum and the product NaN. *)
Lemma float_add_nan (x y : float) :
  is_nan x = true \/ is_nan y = true -> is_nan (x + y)%float = true.
Proof.
  intros H. apply SF_nan_is_nan. rewrite add_spec.
  destruct H as [H%is_nan_true_SF|H%is_nan_true_SF]; rewrite H;
    [reflexivity | now destruct (Prim2SF x)].
Qed.

Lemma float_mul_nan (x y : float) :
  is_nan x = true \/ is_nan y = true -> is_nan (x * y)%float = true.
Proof.
  intros H. apply SF_nan_is_nan. rewrite mul_spec.
  destruct H as [H%is_nan_true_SF|H%is_nan_true_SF]; rewrite H;
    [reflexivity | now destruct (Prim2SF x)].
Qed.

(** ** Writers stay inside the destination *)

Lemma writes_only_store (p : ptr) (v : float) : writes_only p (store p v).
Proof.
  intros m a m'. unfold store. destruct (decide (p < length m)); [|discriminate].
  intros H. assert (Hm : m' = <[p := v]> m) by congruence. subst m'.
  split; [apply length_insert|].
  intros q Hq. apply list_lookup_insert_ne. congruence.
Qed.

Lemma writes_only_load {A} (p p' : ptr) (k : float -> M A) :
  (forall v, writes_only p (k v)) -> writes_only p (load p' ≫= k).
Proof.
  intros Hk m a m'. rewrite bind_load.
  destruct (m !! p') as [v|]; [apply Hk | discriminate].
Qed.

Lemma writes_only_lift {A B} (p : ptr) (o : option A) (k : A -> M B) :
  (forall v, writes_only p (k v)) -> writes_only p (lift o ≫= k).
Proof.
  intros Hk m a m'. rewrite bind_unfold. unfold lift.
  destruct o as [v|]; [apply Hk | discriminate].
Qed.

Lemma writes_only_ret {A B} (p : ptr) (a : A) (k : A -> M B) :
  (forall v, writes_only p (k v)) -> writes_only p (mret a ≫= k).
Proof. intros Hk m b m'. rewrite bind_unfold. apply Hk. Qed.

(** A loop whose body at index [j] writes only the cell [p + j] changes no
    cell outside [p + i, ..., p + i + k - 1]. *)
Lemma for_range_writes_within (p : ptr) (body : nat -> unit -> M unit) (k : nat) :
  (forall j, writes_only (p + j) (body j tt)) ->
  forall i m m', for_range i k body tt m = Some (tt, m') ->
    length m' = length m
    /\ forall q, q < p + i \/ p + i + k <= q -> m' !! q = m !! q.
Proof.
  intros Hbody. induction k as [|k IH]; intros i m m' Hrun.
  - apply ret_frame in Hrun as ->. now split.
  - rewrite for_range_S in Hrun.
    destruct (body i tt m) as [[[] m1]|] eqn:Hb; [|discriminate].
    apply Hbody in Hb as [Hl1 Hq1]. apply IH in Hrun as [Hl Hq].
    split; [congruence|]. intros q Hout.
    rewrite Hq by lia. apply Hq1. lia.
Qed.

(** ** Loops that write one cell per index *)

Section pointwise.
Variables (y : ptr) (n L : nat).
Variable h : nat -> mem -> float.
Variable body : nat -> unit -> M unit.

(** On an arena of [L] cells the body at [j] stores [h j m] at [y + j]. *)
Hypothesis Hbody : forall j m, j < n -> length m = L ->
  body j tt m = Some (tt, <[(y + j)%nat := h j m]> m).

(** [h j] reads no cell that an earlier iteration has written. *)
Hypothesis Hh : forall j m1 m2, j < n ->
  (forall q, ~ (y <= q < y + j) -> m1 !! q = m2 !! q) -> h j m1 = h j m2.

Hypothesis HyL : y + n <= L.

Lemma for_range_pointwise_from (m0 : mem) (k : nat) :
  length m0 = L ->
  forall i m,
    i + k = n -> length m = L ->
    (forall q, ~ (y <= q < y + i) -> m !! q = m0 !! q) ->
    (forall j, j < i -> m !! (y + j)%nat = Some (h j m0)) ->
    exists m',
      for_range i k body tt m = Some (tt, m')
      /\ length m' = L
      /\ (forall j, j < n -> m' !! (y + j)%nat = Some (h j m0))
      /\ (forall q, ~ (y <= q < y + n) -> m' !! q = m0 !! q).
Proof using Hbody Hh HyL.
  intros HL0. induction k as [|k IH]; intros i m Hik HL Hout Hin.
  - exists m. split; [reflexivity|]. split; [exact HL|]. split.
    + intros j Hj. apply Hin. lia.
    + intros q Hq. apply Hout. lia.
  - rewrite for_range_S, Hbody by lia.
    rewrite (Hh i m m0) by (lia || exact Hout).
    apply IH; [lia | rewrite length_insert; exact HL | |].
    + intros q Hq. rewrite list_lookup_insert_ne by lia. apply Hout. lia.
    + intros j Hj. destruct (decide (j = i)) as [->|Hne].
      * apply list_lookup_insert_eq. lia.
      * rewrite list_lookup_insert_ne by lia. apply Hin. lia.
Qed.

Lemma for_range_pointwise (m0 : mem) :
  length m0 = L ->
  exists m',
    for_range 0 n body tt m0 = Some (tt, m')
    /\ length m' = L
    /\ (forall j, j < n -> m' !! (y + j)%nat = Some (h j m0))
    /\ (forall q, ~ (y <= q < y + n) -> m' !! q = m0 !! q).
Proof using Hbody Hh HyL.
  intros HL0. apply for_range_pointwise_from; try (reflexivity || assumption).
  intros j Hj. lia.
Qed.

End pointwise.

(** [y[i] = f(y[i], x[i])] for [i < n]: when [x] does not start inside
    [y] behind its first cell (the buffers are disjoint, or the same, or
    [x] starts further on), every [x[i]] is read before it is written. *)
Lemma zip_loop (f : float -> float -> float) (y x : ptr) (n : nat) (m : mem) :
  y + n <= length m -> x + n <= length m -> y <= x \/ x + n <= y ->
  exists m',
    for_range 0 n (fun i _ =>
      yi ← load (y + i); xi ← load (x + i); store (y + i) (f yi xi)) tt m
    = Some (tt, m')
    /\ length m' = length m
    /\ (forall j, j < n ->
          m' !! (y + j)%nat = Some (f (cells m y j) (cells m x j)))
    /\ (forall q, ~ (y <= q < y + n) -> m' !! q = m !! q).
Proof.
  intros Hy Hx Halias.
  apply (for_range_pointwise y n (length m)
           (fun j m1 => f (cells m1 y j) (cells m1 x j)));
    [ | | exact Hy | reflexivity].
  - intros j m1 Hj HL.
    rewrite bind_load, (cells_lookup m1 y n j) by lia.
    rewrite bind_load, (cells_lookup m1 x n j) by lia.
    apply store_Some. lia.
  - intros j m1 m2 Hj Hagree. unfold cells.
    rewrite (Hagree (y + j)%nat), (Hagree (x + j)%nat) by lia. reflexivity.
Qed.

(** [y[i] = g(y[i])] for [i < n]. *)
Lemma map_loop (g : float -> float) (y : ptr) (n : nat) (m : mem) :
  y + n <= length m ->
  exists m',
    for_range 0 n (fun i _ => yi ← load (y + i); store (y + i) (g yi)) tt m
    = Some (tt, m')
    /\ length m' = length m
    /\ (forall j, j < n -> m' !! (y + j)%nat = Some (g (cells m y j)))
    /\ (forall q, ~ (y <= q < y + n) -> m' !! q = m !! q).
Proof.
  intros Hy.
  apply (for_range_pointwise y n (length m) (fun j m1 => g (cells m1 y j)));
    [ | | exact Hy | reflexivity].
  - intros j m1 Hj HL. rewrite bind_load, (cells_lookup m1 y n j) by lia.
    apply store_Some. lia.
  - intros j m1 m2 Hj Hagree. unfold cells.
    rewrite (Hagree (y + j)%nat) by lia. reflexivity.
Qed.

(** [y[i] = x[i]] for [i < n], under the same condition as [zip_loop]. *)
Lemma copy_loop (y x : ptr) (n : nat) (m : mem) :
  y + n <= length m -> x + n <= length m -> y <= x \/ x + n <= y ->
  exists m',
    for_range 0 n (fun i _ => v ← load (x + i); store (y + i) v) tt m
    = Some (tt, m')
    /\ length m' = length m
    /\ (forall j, j < n -> m' !! (y + j)%nat = Some (cells m x j))
    /\ (forall q, ~ (y <= q < y + n) -> m' !! q = m !! q).
Proof.
  intros Hy Hx Halias.
  apply (for_range_pointwise y n (length m) (fun j m1 => cells m1 x j));
    [ | | exact Hy | reflexivity].
  - intros j m1 Hj HL. rewrite bind_load, (cells_lookup m1 x n j) by lia.
    apply store_Some. lia.
  - intros j m1 m2 Hj Hagree. unfold cells.
    rewrite (Hagree (x + j)%nat) by lia. reflexivity.
Qed.

Lemma cells_Some (m : mem) (x : ptr) (i : nat) (v : float) :
  m !! (x + i)%nat = Some v -> cells m x i = v.
Proof. unfold cells. now intros ->. Qed.

Lemma int_size (n : Z) :
  (0 <= n <= CInt.INT_MAX)%Z ->
  (size_t_wrap (sizeof_floatval_t * n) / sizeof_floatval_t)%Z = n.
Proof.
  unfold size_t_wrap, sizeof_floatval_t.
  change CInt.INT_MAX with 2147483647%Z.
  change (2 ^ 64)%Z with 18446744073709551616%Z.
  intros Hn. rewrite Z.mod_small by lia.
  rewrite Z.mul_comm. apply Z.div_mul. lia.
Qed.

(** X1. No loop writes outside its destination: whenever [vecset],
    [vecadd], [vecaadd], [vecsub], [vecasub], [vecmul], [vecinv], [vecscale]
    or [vecexp] returns, the arena has the size it had and every cell
    outside [y[0..n-1]] has the value it had, whatever the buffers'
    positions. *)
Theorem loops_write_only_destination
    (exp_fn : float -> option float) (y x : ptr) (a : float) (n : Z)
    (op : M unit) (m m' : mem) :
  In op [vecset y a n; vecadd y x n; vecaadd y a x n; vecsub y x n;
         vecasub y a x n; vecmul y x n; vecinv y n; vecscale y a n;
         vecexp_with exp_fn y n; vecexp y n] ->
  op m = Some (tt, m') ->
  kept_outside m m' y n.
Proof.
  intros Hop Hrun.
  assert (Hloop : forall body : nat -> unit -> M unit,
             (forall j, writes_only (y + j) (body j tt)) ->
             for_to n body tt m = Some (tt, m') -> kept_outside m m' y n).
  { intros body Hbody Hr. unfold for_to in Hr.
    apply (for_range_writes_within y) in Hr as [Hl Hq]; [|exact Hbody].
    split; [exact Hl|]. intros q Hout. apply Hq. lia. }
  assert (Hexp : forall f, vecexp_with f y n m = Some (tt, m') ->
                           kept_outside m m' y n).
  { intros f. apply Hloop. intros j. apply writes_only_load. intros xi.
    destruct (xi =? 0)%float.
    - apply writes_only_ret. intros v. apply writes_only_store.
    - apply writes_only_lift. intros v. apply writes_only_store. }
  cbn [In] in Hop.
  destruct Hop as [<-|[<-|[<-|[<-|[<-|[<-|[<-|[<-|[<-|[<-|[]]]]]]]]]]];
    try exact (Hexp _ Hrun);
    revert Hrun; apply Hloop; intros j;
    repeat (apply writes_only_load; intros ?); apply writes_only_store.
Qed.

Lemma loops_write_only_destination_witness :
  kept_outside [1; 2; 3; 4]%float [1; 3; 6; 4]%float 1 2.
Proof.
  apply (loops_write_only_destination fastexp 1 0 0%float 2
           (vecadd 1 0 2) [1; 2; 3; 4]%float [1; 3; 6; 4]%float).
  - cbn [In]. right. left. reflexivity.
  - reflexivity.
Defined.

(** X2. The same for the two operations built on [memset] and [memcpy]:
    for [0 <= n <= INT_MAX], whenever [veczero(y, n)] or [veccopy(y, x, n)]
    returns, only cells of [y[0..n-1]] can have changed. *)
Theorem veczero_veccopy_write_only_destination
    (y x : ptr) (n : Z) (op : M unit) (m m' : mem) :
  (0 <= n <= CInt.INT_MAX)%Z ->
  In op [veczero y n; veccopy y x n] ->
  op m = Some (tt, m') ->
  kept_outside m m' y n.
Proof.
  intros Hn Hop Hrun.
  assert (Hloop : forall body : nat -> unit -> M unit,
             (forall j, writes_only (y + j) (body j tt)) ->
             for_range 0 (Z.to_nat n) body tt m = Some (tt, m') ->
             kept_outside m m' y n).
  { intros body Hbody Hr.
    apply (for_range_writes_within y) in Hr as [Hl Hq]; [|exact Hbody].
    split; [exact Hl|]. intros q Hout. apply Hq. lia. }
  cbn [In] in Hop. destruct Hop as [<-|[<-|[]]].
  - unfold veczero, memset, for_to in Hrun. rewrite int_size in Hrun by exact Hn.
    revert Hrun. apply Hloop. intros j. apply writes_only_store.
  - unfold veccopy, memcpy in Hrun. rewrite int_size in Hrun by exact Hn.
    destruct (decide _) in Hrun; [|discriminate].
    revert Hrun. apply Hloop. intros j.
    apply writes_only_load. intros v. apply writes_only_store.
Qed.

Lemma veczero_veccopy_write_only_destination_witness :
  kept_outside [1; 2; 3; 4]%float [3; 4; 3; 4]%float 0 2.
Proof.
  apply (veczero_veccopy_write_only_destination 0 2 2
           (veccopy 0 2 2) [1; 2; 3; 4]%float [3; 4; 3; 4]%float).
  - split; discriminate.
  - cbn [In]. right. left. reflexivity.
  - reflexivity.
Defined.



(** X4. For [0 <= n <= INT_MAX], [veczero(x, n)] and [vecset(x, 0., n)] do
    the same to every memory: the bytes [memset] writes are those of
    [+0.0]. *)
Theorem veczero_is_vecset_zero (m : mem) (x : ptr) (n : Z) :
  (0 <= n <= CInt.INT_MAX)%Z ->
  veczero x n m = vecset x 0 n m.
Proof.
  intros Hn. unfold veczero, vecset, memset.
  now rewrite int_size, veczero_value by exact Hn.
Qed.

Lemma veczero_is_vecset_zero_witness :
  veczero 1 2 [1; 2; 3; 4]%float = vecset 1 0 2 [1; 2; 3; 4]%float.
Proof.
  apply (veczero_is_vecset_zero [1; 2; 3; 4]%float 1 2). split; discriminate.
Defined.

(** X5. For [0 <= n <= INT_MAX] and two disjoint buffers of at least [n]
    cells, [veccopy(y, x, n)] returns with [y[i] = x[i]] for [i < n], [x]
    as it was, and nothing outside [y] changed. *)
Theorem veccopy_copies (m : mem) (y x : ptr) (n : Z) :
  (0 <= n <= CInt.INT_MAX)%Z ->
  (y + Z.to_nat n <= length m)%nat ->
  (x + Z.to_nat n <= length m)%nat ->
  (y + Z.to_nat n <= x \/ x + Z.to_nat n <= y)%nat ->
  exists m',
    veccopy y x n m = Some (tt, m')
    /\ (forall i, (i < Z.to_nat n)%nat -> m' !! (y + i)%nat = m !! (x + i)%nat)
    /\ (forall i, (i < Z.to_nat n)%nat -> m' !! (x + i)%nat = m !! (x + i)%nat)
    /\ kept_outside m m' y n.
Proof.
  intros Hn Hy Hx Hdis. unfold veccopy, memcpy. rewrite int_size by exact Hn.
  rewrite decide_True by lia.
  destruct (copy_loop y x (Z.to_nat n) m) as (m' & Hrun & Hl & Hin & Hout);
    [lia | lia | lia |].
  exists m'. split; [exact Hrun|]. split; [|split; [|split]].
  - intros i Hi. rewrite Hin by exact Hi.
    symmetry. apply (cells_lookup m x (Z.to_nat n)); lia.
  - intros i Hi. apply Hout. lia.
  - exact Hl.
  - intros q Hq. apply Hout. lia.
Qed.

Lemma veccopy_copies_witness :
  exists m',
    veccopy 0 2 2 [1; 2; 3; 4]%float = Some (tt, m')
    /\ (forall i, (i < 2)%nat ->
          m' !! (0 + i)%nat = [1; 2; 3; 4]%float !! (2 + i)%nat)
    /\ (forall i, (i < 2)%nat ->
          m' !! (2 + i)%nat = [1; 2; 3; 4]%float !! (2 + i)%nat)
    /\ kept_outside [1; 2; 3; 4]%float m' 0 2.
Proof.
  apply (veccopy_copies [1; 2; 3; 4]%float 0 2 2); simpl; try lia.
  split; discriminate.
Defined.

(** X6. The five two-buffer loops are elementwise: when both buffers lie
    in the arena and [x] does not start inside [y] behind its first cell
    (they are disjoint, or the same buffer, or [x] starts further on), the
    call returns and the new [y[i]] is [y[i] + x[i]] ([vecadd]),
    [y[i] - x[i]] ([vecsub]), [y[i] * x[i]] ([vecmul]), [y[i] + a * x[i]]
    ([vecaadd]) or [y[i] - a * x[i]] ([vecasub]) of the old values. *)
Theorem binary_ops_elementwise
    (y x : ptr) (a : float) (n : Z) (op : M unit)
    (f : float -> float -> float) (m : mem) :
  In (op, f)
     [(vecadd y x n, fun yi xi => yi + xi);
      (vecsub y x n, fun yi xi => yi - xi);
      (vecmul y x n, fun yi xi => yi * xi);
      (vecaadd y a x n, fun yi xi => yi + a * xi);
      (vecasub y a x n, fun yi xi => yi - a * xi)]%float ->
  (y + Z.to_nat n <= length m)%nat ->
  (x + Z.to_nat n <= length m)%nat ->
  (y <= x \/ x + Z.to_nat n <= y)%nat ->
  exists m',
    op m = Some (tt, m')
    /\ (forall i yi xi, (i < Z.to_nat n)%nat ->
          m !! (y + i)%nat = Some yi -> m !! (x + i)%nat = Some xi ->
          m' !! (y + i)%nat = Some (f yi xi))
    /\ kept_outside m m' y n.
Proof.
  intros Hop Hy Hx Halias.
  destruct (zip_loop f y x (Z.to_nat n) m Hy Hx Halias)
    as (m' & Hrun & Hl & Hin & Hout).
  exists m'. split; [|split; [|split]].
  - cbn [In] in Hop.
    destruct Hop as [H|[H|[H|[H|[H|[]]]]]];
      apply (f_equal fst) in H as Ho; apply (f_equal snd) in H as Hf;
      cbn [fst snd] in Ho, Hf; subst op f; exact Hrun.
  - intros i yi xi Hi Hyi Hxi. rewrite Hin by exact Hi.
    now rewrite (cells_Some _ _ _ _ Hyi), (cells_Some _ _ _ _ Hxi).
  - exact Hl.
  - intros q Hq. apply Hout. lia.
Qed.

Lemma binary_ops_elementwise_witness :
  exists m',
    vecmul 0 0 3 [1; 2; 3]%float = Some (tt, m')
    /\ (forall i yi xi, (i < 3)%nat ->
          [1; 2; 3]%float !! (0 + i)%nat = Some yi ->
          [1; 2; 3]%float !! (0 + i)%nat = Some xi ->
          m' !! (0 + i)%nat = Some (yi * xi)%float)
    /\ kept_outside [1; 2; 3]%float m' 0 3.
Proof.
  apply (binary_ops_elementwise 0 0 0%float 3 (vecmul 0 0 3)
           (fun yi xi => yi * xi)%float [1; 2; 3]%float).
  - cbn [In]. right. right. left. reflexivity.
  - simpl. lia.
  - simpl. lia.
  - left. lia.
Defined.

(** X7. For a buffer of at least [n] cells, [vecinv(y, n)] returns with
    every [y[i]] replaced by [1 / y[i]]; no zero is guarded against: a cell
    that held [+0.0] holds positive infinity and one that held [-0.0] holds
    negative infinity. *)
Theorem vecinv_reciprocal (m : mem) (y : ptr) (n : Z) :
  (y + Z.to_nat n <= length m)%nat ->
  exists m',
    vecinv y n m = Some (tt, m')
    /\ (forall i v, (i < Z.to_nat n)%nat -> m !! (y + i)%nat = Some v ->
          m' !! (y + i)%nat = Some (1 / v)%float)
    /\ (forall i, (i < Z.to_nat n)%nat -> m !! (y + i)%nat = Some 0%float ->
          m' !! (y + i)%nat = Some infinity)
    /\ (forall i, (i < Z.to_nat n)%nat -> m !! (y + i)%nat = Some neg_zero ->
          m' !! (y + i)%nat = Some neg_infinity)
    /\ kept_outside m m' y n.
Proof.
  intros Hy.
  destruct (map_loop (fun v => 1 / v)%float y (Z.to_nat n) m Hy)
    as (m' & Hrun & Hl & Hin & Hout).
  assert (Hgen : forall i v, (i < Z.to_nat n)%nat ->
             m !! (y + i)%nat = Some v ->
             m' !! (y + i)%nat = Some (1 / v)%float).
  { intros i v Hi Hv. rewrite Hin by exact Hi.
    now rewrite (cells_Some _ _ _ _ Hv). }
  exists m'. split; [exact Hrun|]. split; [exact Hgen|].
  split; [|split; [|split]].
  - intros i Hi Hv. now rewrite (Hgen i _ Hi Hv).
  - intros i Hi Hv. now rewrite (Hgen i _ Hi Hv).
  - exact Hl.
  - intros q Hq. apply Hout. lia.
Qed.

Lemma vecinv_reciprocal_witness :
  exists m',
    vecinv 0 3 [2; 0; neg_zero]%float = Some (tt, m')
    /\ (forall i v, (i < 3)%nat ->
          [2; 0; neg_zero]%float !! (0 + i)%nat = Some v ->
          m' !! (0 + i)%nat = Some (1 / v)%float)
    /\ (forall i, (i < 3)%nat ->
          [2; 0; neg_zero]%float !! (0 + i)%nat = Some 0%float ->
          m' !! (0 + i)%nat = Some infinity)
    /\ (forall i, (i < 3)%nat ->
          [2; 0; neg_zero]%float !! (0 + i)%nat = Some neg_zero ->
          m' !! (0 + i)%nat = Some neg_infinity)
    /\ kept_outside [2; 0; neg_zero]%float m' 0 3.
Proof. apply (vecinv_reciprocal [2; 0; neg_zero]%float 0 3). simpl. lia. Defined.

(** X8. For a buffer of at least [n] cells, [vecscale(y, a, n)] returns
    with every [y[i]] replaced by [y[i] * a]; with [a = 1] the memory is
    left exactly as it was. *)
Theorem vecscale_scales (m : mem) (y : ptr) (a : float) (n : Z) :
  (y + Z.to_nat n <= length m)%nat ->
  (exists m',
     vecscale y a n m = Some (tt, m')
     /\ (forall i v, (i < Z.to_nat n)%nat -> m !! (y + i)%nat = Some v ->
           m' !! (y + i)%nat = Some (v * a)%float)
     /\ kept_outside m m' y n)
  /\ vecscale y 1 n m = Some (tt, m).
Proof.
  intros Hy. split.
  - destruct (map_loop (fun v => v * a)%float y (Z.to_nat n) m Hy)
      as (m' & Hrun & Hl & Hin & Hout).
    exists m'. split; [exact Hrun|]. split; [|split].
    + intros i v Hi Hv. rewrite Hin by exact Hi.
      now rewrite (cells_Some _ _ _ _ Hv).
    + exact Hl.
    + intros q Hq. apply Hout. lia.
  - unfold vecscale, for_to.
    rewrite (for_range_pure _ (fun u _ => u) m).
    + now destruct (foldl _ _ _).
    + intros j [] Hj.
      rewrite bind_load, (cells_lookup m y (Z.to_nat n) j) by lia.
      rewrite float_mul_1_r, store_Some by lia.
      rewrite list_insert_id; [reflexivity|].
      apply (cells_lookup m y (Z.to_nat n)); lia.
Qed.

Lemma vecscale_scales_witness :
  (exists m',
     vecscale 0 2 3 [1; 2; 3]%float = Some (tt, m')
     /\ (forall i v, (i < 3)%nat -> [1; 2; 3]%float !! (0 + i)%nat = Some v ->
           m' !! (0 + i)%nat = Some (v * 2)%float)
     /\ kept_outside [1; 2; 3]%float m' 0 3)
  /\ vecscale 0 1 3 [1; 2; 3]%float = Some (tt, [1; 2; 3]%float).
Proof. apply (vecscale_scales [1; 2; 3]%float 0 2 3). simpl. lia. Defined.

(** X10. [vecasub(y, a, x, n)] does to every memory what
    [vecaadd(y, -a, x, n)] does, and [vecasub(y, 1, x, n)] what
    [vecsub(y, x, n)] does. *)
Theorem vecasub_as_vecaadd (m : mem) (y x : ptr) (a : float) (n : Z) :
  vecasub y a x n m = vecaadd y (- a) x n m
  /\ vecasub y 1 x n m = vecsub y x n m.
Proof.
  split.
  - unfold vecasub, vecaadd, for_to. apply for_range_ext. clear m.
    intros i [] m. rewrite !bind_load.
    destruct (m !! (y + i)%nat) as [yi|]; [|reflexivity].
    rewrite !bind_load.
    destruct (m !! (x + i)%nat) as [xi|]; [|reflexivity].
    now rewrite float_opp_mul, float_sub_add_opp.
  - unfold vecasub, vecsub, for_to. apply for_range_ext. clear m.
    intros i [] m. rewrite !bind_load.
    destruct (m !! (y + i)%nat) as [yi|]; [|reflexivity].
    rewrite !bind_load.
    destruct (m !! (x + i)%nat) as [xi|]; [|reflexivity].
    now rewrite float_mul_1_l.
Qed.

(** X9. Filling a scratch buffer [t] with [a] and multiplying [y] by it
    gives the same [y] as [vecscale(y, a, n)], for disjoint buffers of at
    least [n] cells. *)
Theorem vecset_then_vecmul_is_vecscale
    (m : mem) (y t : ptr) (a : float) (n : Z) :
  (y + Z.to_nat n <= length m)%nat ->
  (t + Z.to_nat n <= length m)%nat ->
  (y + Z.to_nat n <= t \/ t + Z.to_nat n <= y)%nat ->
  exists m1 m2 m3,
    vecset t a n m = Some (tt, m1)
    /\ vecmul y t n m1 = Some (tt, m2)
    /\ vecscale y a n m = Some (tt, m3)
    /\ forall i, (i < Z.to_nat n)%nat -> m2 !! (y + i)%nat = m3 !! (y + i)%nat.
Proof.
  intros Hy Ht Hdis.
  destruct (for_range_store_const t a (Z.to_nat n) 0 m)
    as (m1 & Hrun1 & Hl1 & Hin1 & Hout1); [lia|].
  destruct (zip_loop (fun yi xi => yi * xi)%float y t (Z.to_nat n) m1)
    as (m2 & Hrun2 & Hl2 & Hin2 & _); [lia | lia | lia |].
  destruct (map_loop (fun v => v * a)%float y (Z.to_nat n) m Hy)
    as (m3 & Hrun3 & Hl3 & Hin3 & _).
  exists m1, m2, m3. repeat split; try assumption.
  intros i Hi. rewrite Hin2, Hin3 by exact Hi. unfold cells.
  rewrite (Hout1 (y + i)%nat), (Hin1 (t + i)%nat) by lia. reflexivity.
Qed.

Lemma vecset_then_vecmul_is_vecscale_witness :
  exists m1 m2 m3,
    vecset 2 3 2 [1; 2; 0; 0]%float = Some (tt, m1)
    /\ vecmul 0 2 2 m1 = Some (tt, m2)
    /\ vecscale 0 3 2 [1; 2; 0; 0]%float = Some (tt, m3)
    /\ forall i, (i < 2)%nat -> m2 !! (0 + i)%nat = m3 !! (0 + i)%nat.
Proof.
  apply (vecset_then_vecmul_is_vecscale [1; 2; 0; 0]%float 0 2 3 2);
    simpl; lia.
Defined.

(** Once an accumulation [s + t i] meets a NaN it stays NaN. *)
Lemma foldl_add_nan (t : nat -> float) (l : list nat) :
  forall s,
    is_nan s = true \/ (exists i, In i l /\ is_nan (t i) = true) ->
    is_nan (foldl (fun s i => s + t i)%float s l) = true.
Proof.
  induction l as [|j l IH]; intros s H; cbn [foldl].
  - destruct H as [H|(i & [] & _)]. exact H.
  - apply IH. destruct H as [H|(i & [<-|Hi] & Hn)].
    + left. apply float_add_nan. now left.
    + left. apply float_add_nan. now right.
    + right. now exists i.
Qed.

(** X11. Nothing filters a NaN out of a reduction: when some [x[i]],
    [i < n], is NaN, [vecsum(x, n)] and [vecdot] with [x] as either operand
    return NaN. *)
Theorem reductions_propagate_nan
    (m : mem) (x y : ptr) (n : Z) (i : nat) (v : float) :
  (x + Z.to_nat n <= length m)%nat ->
  (y + Z.to_nat n <= length m)%nat ->
  (i < Z.to_nat n)%nat ->
  m !! (x + i)%nat = Some v -> is_nan v = true ->
  (exists s, vecsum x n m = Some (s, m) /\ is_nan s = true)
  /\ (exists s, vecdot x y n m = Some (s, m) /\ is_nan s = true)
  /\ (exists s, vecdot y x n m = Some (s, m) /\ is_nan s = true).
Proof.
  intros Hx Hy Hi Hv Hnan.
  pose proof (fun j => cells_lookup m x (Z.to_nat n) j Hx) as HX.
  pose proof (fun j => cells_lookup m y (Z.to_nat n) j Hy) as HY.
  assert (Hc : cells m x i = v) by now apply cells_Some.
  split; [|split]; eexists; split.
  - now apply (vecsum_fold m x n (cells m x)).
  - apply foldl_add_nan. right. exists i. split; [apply in_seq; lia|].
    now rewrite Hc.
  - now apply (vecdot_fold m x y n (cells m x) (cells m y)).
  - apply (foldl_add_nan (fun j => cells m x j * cells m y j)%float).
    right. exists i. split; [apply in_seq; lia|].
    apply float_mul_nan. left. now rewrite Hc.
  - now apply (vecdot_fold m y x n (cells m y) (cells m x)).
  - apply (foldl_add_nan (fun j => cells m y j * cells m x j)%float).
    right. exists i. split; [apply in_seq; lia|].
    apply float_mul_nan. right. now rewrite Hc.
Qed.

Lemma reductions_propagate_nan_witness :
  (exists s, vecsum 0 3 [1; nan; 3]%float = Some (s, [1; nan; 3]%float)
             /\ is_nan s = true)
  /\ (exists s, vecdot 0 0 3 [1; nan; 3]%float = Some (s, [1; nan; 3]%float)
                /\ is_nan s = true)
  /\ (exists s, vecdot 0 0 3 [1; nan; 3]%float = Some (s, [1; nan; 3]%float)
                /\ is_nan s = true).
Proof.
  apply (reductions_propagate_nan [1; nan; 3]%float 0 0 3 1 nan);
    try (simpl; lia); reflexivity.
Defined.

Lemma fastexp_nan (x : float) : is_nan x = true -> fastexp x = None.
Proof.
  intros Hx%is_nan_true_SF. unfold fastexp.
  rewrite !FloatAxioms.ltb_spec, Hx, MAXLOG_SF.
  change (SFltb (S754_finite false 6231120794008786 (-43)) S754_nan) with false.
  change (SFltb S754_nan (Prim2SF MINLOG)) with false.
  cbv iota. unfold fastexp_n, Double.to_int.
  rewrite add_spec, mul_spec, Hx, LOG2E_SF. reflexivity.
Qed.

(** X12. [fastexp] returns a value exactly for the arguments that are not
    NaN; for a NaN both tests of the clamp are false and the conversion to
    [int] is undefined. *)
Theorem fastexp_defined_iff (x : float) :
  is_Some (fastexp x) <-> is_nan x = false.
Proof.
  split.
  - intros [v Hv]. destruct (is_nan x) eqn:Hx; [|reflexivity].
    rewrite (fastexp_nan x Hx) in Hv. discriminate Hv.
  - apply fastexp_defined.
Qed.

Lemma fastexp_defined_iff_witness :
  is_Some (fastexp (-3)) /\ is_nan 800 = false.
Proof.
  split.
  - apply (fastexp_defined_iff (-3)). reflexivity.
  - apply (fastexp_defined_iff 800). now exists INFINITY.
Defined.

Lemma nan_eqb (v w : float) : is_nan v = true -> (v =? w)%float = false.
Proof.
  intros Hv%is_nan_true_SF. rewrite FloatAxioms.eqb_spec, Hv. reflexivity.
Qed.

(** The loop of [vecexp] fails when the exponential is undefined at a cell
    of the range that is not a zero. *)
Lemma vecexp_loop_fails (exp_fn : float -> option float) (x : ptr) (k : nat) :
  forall (i : nat) (m : mem) (j : nat) (v : float),
    i <= j < i + k -> m !! (x + j)%nat = Some v ->
    (v =? 0)%float = false -> exp_fn v = None ->
    for_range i k (fun i _ =>
      xi ← load (x + i);
      v ← (if (xi =? 0)%float then mret 1%float else lift (exp_fn xi));
      store (x + i) v) tt m = None.
Proof.
  induction k as [|k IH]; intros i m j v Hj Hv Hz Hf; [lia|].
  rewrite for_range_S, bind_load.
  destruct (m !! (x + i)%nat) as [vi|] eqn:Hvi; [|reflexivity].
  rewrite bind_unfold.
  destruct (decide (j = i)) as [->|Hne].
  - assert (vi = v) by congruence. subst vi. rewrite Hz, Hf. reflexivity.
  - destruct (if (vi =? 0)%float then mret 1%float else lift (exp_fn vi))
      as [[w m1]|] eqn:Hw; [|reflexivity].
    assert (Hm1 : m1 = m).
    { destruct (vi =? 0)%float; [now apply ret_frame in Hw|].
      unfold lift in Hw. destruct (exp_fn vi); [|discriminate].
      congruence. }
    subst m1. unfold store. destruct (decide (x + i < length m)); [|reflexivity].
    apply (IH (S i) _ j v); [lia | | exact Hz | exact Hf].
    rewrite list_lookup_insert_ne by lia. exact Hv.
Qed.

(** X13. [vecexp(x, n)] is undefined as soon as one of the [n] cells is
    NaN: the cell is not a zero, so it is passed to [fastexp]. *)
Theorem vecexp_nan_undefined (m : mem) (x : ptr) (n : Z) (i : nat) (v : float) :
  (i < Z.to_nat n)%nat -> m !! (x + i)%nat = Some v -> is_nan v = true ->
  vecexp x n m = None.
Proof.
  intros Hi Hv Hnan. unfold vecexp, vecexp_with, for_to.
  apply (vecexp_loop_fails fastexp x (Z.to_nat n) 0 m i v);
    [lia | exact Hv | now apply nan_eqb | now apply fastexp_nan].
Qed.

Lemma vecexp_nan_undefined_witness : vecexp 0 3 [1; nan; 2]%float = None.
Proof.
  apply (vecexp_nan_undefined [1; nan; 2]%float 0 3 1 nan);
    [simpl; lia | reflexivity | reflexivity].
Defined.

(** X14. One more cell extends a reduction by one accumulation step:
    [vecsum(x, n + 1)] is [vecsum(x, n) + x[n]], [vecdot(x, y, n + 1)] is
    [vecdot(x, y, n) + x[n] * y[n]] and [vecsumlog(x, n + 1)] is
    [vecsumlog(x, n) + log(x[n])]. *)
Theorem reductions_extend
    (log : float -> float) (m : mem) (x y : ptr) (n : Z) :
  (0 <= n)%Z ->
  (x + Z.to_nat n + 1 <= length m)%nat ->
  (y + Z.to_nat n + 1 <= length m)%nat ->
  exists s d l xn yn,
    m !! (x + Z.to_nat n)%nat = Some xn
    /\ m !! (y + Z.to_nat n)%nat = Some yn
    /\ vecsum x n m = Some (s, m)
    /\ vecsum x (n + 1) m = Some (s + xn, m)%float
    /\ vecdot x y n m = Some (d, m)
    /\ vecdot x y (n + 1) m = Some (d + xn * yn, m)%float
    /\ vecsumlog log x n m = Some (l, m)
    /\ vecsumlog log x (n + 1) m = Some (l + log xn, m)%float.
Proof.
  intros Hn Hx Hy.
  assert (HS : Z.to_nat (n + 1) = S (Z.to_nat n)) by lia.
  pose proof (fun j => cells_lookup m x (S (Z.to_nat n)) j ltac:(lia)) as HX.
  pose proof (fun j => cells_lookup m y (S (Z.to_nat n)) j ltac:(lia)) as HY.
  exists (foldl (fun s i => s + cells m x i)%float 0%float (seq 0 (Z.to_nat n))),
    (foldl (fun s i => s + cells m x i * cells m y i)%float 0%float
       (seq 0 (Z.to_nat n))),
    (foldl (fun s i => s + log (cells m x i))%float 0%float
       (seq 0 (Z.to_nat n))),
    (cells m x (Z.to_nat n)), (cells m y (Z.to_nat n)).
  split; [apply HX; lia|]. split; [apply HY; lia|].
  split; [|split; [|split; [|split; [|split]]]].
  - apply vecsum_fold. intros i Hi. apply HX. lia.
  - rewrite (vecsum_fold m x (n + 1) (cells m x))
      by (intros i Hi; apply HX; lia).
    now rewrite HS, seq_S, foldl_app.
  - apply vecdot_fold; intros i Hi; [apply HX | apply HY]; lia.
  - rewrite (vecdot_fold m x y (n + 1) (cells m x) (cells m y))
      by (intros i Hi; first [apply HX | apply HY]; lia).
    now rewrite HS, seq_S, foldl_app.
  - apply vecsumlog_fold. intros i Hi. apply HX. lia.
  - rewrite (vecsumlog_fold log m x (n + 1) (cells m x))
      by (intros i Hi; apply HX; lia).
    now rewrite HS, seq_S, foldl_app.
Qed.

Lemma reductions_extend_witness :
  exists s d l xn yn,
    [1; 2; 3]%float !! (0 + Z.to_nat 2)%nat = Some xn
    /\ [1; 2; 3]%float !! (0 + Z.to_nat 2)%nat = Some yn
    /\ vecsum 0 2 [1; 2; 3]%float = Some (s, [1; 2; 3]%float)
    /\ vecsum 0 (2 + 1) [1; 2; 3]%float = Some (s + xn, [1; 2; 3])%float
    /\ vecdot 0 0 2 [1; 2; 3]%float = Some (d, [1; 2; 3]%float)
    /\ vecdot 0 0 (2 + 1) [1; 2; 3]%float
       = Some (d + xn * yn, [1; 2; 3])%float
    /\ vecsumlog PrimFloat.sqrt 0 2 [1; 2; 3]%float = Some (l, [1; 2; 3]%float)
    /\ vecsumlog PrimFloat.sqrt 0 (2 + 1) [1; 2; 3]%float
       = Some (l + PrimFloat.sqrt xn, [1; 2; 3])%float.
Proof.
  apply (reductions_extend PrimFloat.sqrt [1; 2; 3]%float 0 0 2); simpl; lia.
Defined.

(** A store loop that runs past the end of the arena fails. *)
Lemma for_range_store_overrun (p : ptr) (v : float) (k : nat) :
  forall (i : nat) (m : mem),
    0 < k -> length m < p + i + k ->
    for_range i k (fun j _ => store (p + j) v) tt m = None.
Proof.
  induction k as [|k IH]; intros i m Hk Hlen; [lia|].
  rewrite for_range_S. unfold store at 1.
  destruct (decide (p + i < length m)) as [Hin|Hout]; [|reflexivity].
  apply IH; rewrite ?length_insert; lia.
Qed.

(** For a negative [int] the byte count [sizeof(floatval_t) * n] wraps to
    more than [2^60] cells. *)
Lemma negative_size (n : Z) :
  (CInt.INT_MIN <= n < 0)%Z ->
  (2 ^ 60 < size_t_wrap (sizeof_floatval_t * n) / sizeof_floatval_t)%Z.
Proof.
  unfold size_t_wrap, sizeof_floatval_t.
  change CInt.INT_MIN with (-2147483648)%Z.
  change (2 ^ 64)%Z with 18446744073709551616%Z.
  change (2 ^ 60)%Z with 1152921504606846976%Z.
  intros Hn. Z.div_mod_to_equations. lia.
Qed.

(** X15. A negative length.  The loops treat it as empty: they return at
    once, touch no cell, and the reductions return [0.0].  [veczero] and
    [veccopy] do not: the byte count [sizeof(floatval_t) * n] wraps to more
    than [2^60] cells, which runs out of every arena of at most [2^60]
    cells. *)
Theorem negative_length
    (log : float -> float) (m : mem) (y x : ptr) (a : float) (n : Z) :
  (CInt.INT_MIN <= n < 0)%Z ->
  (Z.of_nat (length m) <= 2 ^ 60)%Z ->
  (forall op, In op [vecset y a n; vecadd y x n; vecaadd y a x n;
                     vecsub y x n; vecasub y a x n; vecmul y x n;
                     vecinv y n; vecscale y a n; vecexp y n] ->
     op m = Some (tt, m))
  /\ vecdot x y n m = Some (0%float, m)
  /\ vecsum x n m = Some (0%float, m)
  /\ vecsumlog log x n m = Some (0%float, m)
  /\ veczero y n m = None
  /\ veccopy y x n m = None.
Proof.
  intros Hn Hlen.
  assert (H0 : Z.to_nat n = 0%nat) by lia.
  pose proof (negative_size n Hn) as Hsize.
  split; [|split; [|split; [|split; [|split]]]].
  - intros op Hop. cbn [In] in Hop.
    destruct Hop as [<-|[<-|[<-|[<-|[<-|[<-|[<-|[<-|[<-|[]]]]]]]]]];
      unfold vecset, vecadd, vecaadd, vecsub, vecasub, vecmul, vecinv,
        vecscale, vecexp, vecexp_with, for_to; rewrite H0; reflexivity.
  - unfold vecdot, for_to. rewrite H0. reflexivity.
  - unfold vecsum, for_to. rewrite H0. reflexivity.
  - unfold vecsumlog, for_to. rewrite H0. reflexivity.
  - unfold veczero, memset, for_to.
    apply for_range_store_overrun; lia.
  - unfold veccopy, memcpy.
    set (k := Z.to_nat (size_t_wrap (sizeof_floatval_t * n) / sizeof_floatval_t)).
    assert (Hk : length m < k) by (unfold k; lia).
    destruct (decide _) as [Hd|]; [|reflexivity].
    destruct k as [|k']; [lia|].
    rewrite for_range_S, bind_load.
    destruct (m !! (x + 0)%nat) as [v|] eqn:Hv; [|reflexivity].
    apply lookup_lt_Some in Hv. unfold store.
    rewrite decide_False by lia. reflexivity.
Qed.

Lemma negative_length_witness :
  (forall op, In op [vecset 0 1 (-1); vecadd 0 1 (-1); vecaadd 0 1 1 (-1);
                     vecsub 0 1 (-1); vecasub 0 1 1 (-1); vecmul 0 1 (-1);
                     vecinv 0 (-1); vecscale 0 1 (-1); vecexp 0 (-1)] ->
     op [1; 2]%float = Some (tt, [1; 2]%float))
  /\ vecdot 1 0 (-1) [1; 2]%float = Some (0%float, [1; 2]%float)
  /\ vecsum 1 (-1) [1; 2]%float = Some (0%float, [1; 2]%float)
  /\ vecsumlog PrimFloat.sqrt 1 (-1) [1; 2]%float = Some (0%float, [1; 2]%float)
  /\ veczero 0 (-1) [1; 2]%float = None
  /\ veccopy 0 1 (-1) [1; 2]%float = None.
Proof.
  apply (negative_length PrimFloat.sqrt [1; 2]%float 0 1 1%float (-1)).
  - split; [discriminate | reflexivity].
  - discriminate.
Defined.

Lemma vecadd_shifted_from (m : mem) (x : ptr) (n k : nat) :
  x + 1 + n <= length m ->
  forall (i : nat) (mc : mem),
    i + k = n -> length mc = length m ->
    (forall j, j <= i -> mc !! (x + j)%nat = Some (running_sum m x j)) ->
    (forall q, x + i < q -> mc !! q = m !! q) ->
    exists m',
      for_range i k (fun i _ =>
        yi ← load (x + 1 + i); xi ← load (x + i);
        store (x + 1 + i) (yi + xi)) tt mc = Some (tt, m')
      /\ length m' = length m
      /\ (forall j, j <= n -> m' !! (x + j)%nat = Some (running_sum m x j))
      /\ (forall q, x + n < q -> m' !! q = m !! q).
Proof.
  intros Hlen. induction k as [|k IH]; intros i mc Hik HL Hsum Hrest.
  - exists mc. split; [reflexivity|]. split; [exact HL|]. split.
    + intros j Hj. apply Hsum. lia.
    + intros q Hq. apply Hrest. lia.
  - rewrite for_range_S, bind_load, (Hrest (x + 1 + i)%nat) by lia.
    replace (x + 1 + i)%nat with (x + S i)%nat by lia.
    rewrite (cells_lookup m x (S n) (S i)) by lia.
    rewrite bind_load, (Hsum i) by lia. rewrite store_Some by lia.
    apply IH; [lia | rewrite length_insert; exact HL | |].
    + intros j Hj. destruct (decide (j = S i)) as [->|Hne].
      * rewrite list_lookup_insert_eq by lia. reflexivity.
      * rewrite list_lookup_insert_ne by lia. apply Hsum. lia.
    + intros q Hq. rewrite list_lookup_insert_ne by lia. apply Hrest. lia.
Qed.

(** X17. When [y] starts one cell after [x], [vecadd(y, x, n)] reads cells
    it has already written: it leaves in [x[i]], [i <= n], the running sum
    [x[i] + (x[i-1] + (... + x[0]))] of the old values. *)
Theorem vecadd_overlap_running_sums (m : mem) (x : ptr) (n : Z) :
  (x + 1 + Z.to_nat n <= length m)%nat ->
  exists m',
    vecadd (x + 1) x n m = Some (tt, m')
    /\ (forall i, (i <= Z.to_nat n)%nat ->
          m' !! (x + i)%nat = Some (running_sum m x i))
    /\ kept_outside m m' (x + 1) n.
Proof.
  intros Hlen. unfold vecadd, for_to.
  destruct (vecadd_shifted_from m x (Z.to_nat n) (Z.to_nat n) Hlen 0 m)
    as (m' & Hrun & Hl & Hin & Hout); try reflexivity.
  - intros j Hj. replace j with 0%nat by lia.
    apply (cells_lookup m x (S (Z.to_nat n))); lia.
  - exists m'. split; [exact Hrun|]. split; [exact Hin|].
    split; [exact Hl|]. intros q [Hq|Hq].
    + destruct (decide (q = x)) as [->|Hne].
      * rewrite <- (Nat.add_0_r x) at 1. rewrite (Hin 0%nat) by lia.
        symmetry. rewrite <- (Nat.add_0_r x) at 1.
        apply (cells_lookup m x (S (Z.to_nat n))); lia.
      * apply (for_range_writes_within (x + 1)) in Hrun as [_ Hw].
        -- apply Hw. lia.
        -- intros j. repeat (apply writes_only_load; intros ?).
           apply writes_only_store.
    + apply Hout. lia.
Qed.

Lemma vecadd_overlap_running_sums_witness :
  exists m',
    vecadd (0 + 1) 0 3 [1; 2; 3; 4]%float = Some (tt, m')
    /\ (forall i, (i <= 3)%nat ->
          m' !! (0 + i)%nat = Some (running_sum [1; 2; 3; 4]%float 0 i))
    /\ kept_outside [1; 2; 3; 4]%float m' (0 + 1) 3.
Proof.
  apply (vecadd_overlap_running_sums [1; 2; 3; 4]%float 0 3). simpl. lia.
Defined.

(** X18. A dot product is an elementwise product followed by a sum:
    [vecmul(x, y, n)] and then [vecsum(x, n)] return the value that
    [vecdot(x, y, n)] returns on the memory before, when [y] does not start
    inside [x] behind its first cell. *)
Theorem vecdot_is_vecmul_then_vecsum (m : mem) (x y : ptr) (n : Z) :
  (x + Z.to_nat n <= length m)%nat ->
  (y + Z.to_nat n <= length m)%nat ->
  (x <= y \/ y + Z.to_nat n <= x)%nat ->
  exists s m1,
    vecdot x y n m = Some (s, m)
    /\ vecmul x y n m = Some (tt, m1)
    /\ vecsum x n m1 = Some (s, m1).
Proof.
  intros Hx Hy Halias.
  destruct (zip_loop (fun yi xi => yi * xi)%float x y (Z.to_nat n) m Hx Hy Halias)
    as (m1 & Hrun & Hl & Hin & _).
  pose proof (fun j => cells_lookup m x (Z.to_nat n) j Hx) as HX.
  pose proof (fun j => cells_lookup m y (Z.to_nat n) j Hy) as HY.
  eexists _, m1. split; [|split; [exact Hrun|]].
  - now apply (vecdot_fold m x y n (cells m x) (cells m y)).
  - rewrite (vecsum_fold m1 x n (fun j => cells m x j * cells m y j)%float)
      by (intros i Hi; now apply Hin).
    reflexivity.
Qed.

Lemma vecdot_is_vecmul_then_vecsum_witness :
  exists s m1,
    vecdot 0 2 2 [1; 2; 3; 4]%float = Some (s, [1; 2; 3; 4]%float)
    /\ vecmul 0 2 2 [1; 2; 3; 4]%float = Some (tt, m1)
    /\ vecsum 0 2 m1 = Some (s, m1).
Proof.
  apply (vecdot_is_vecmul_then_vecsum [1; 2; 3; 4]%float 0 2 2); simpl; lia.
Defined.

(** ** fastexp: the high part of the reduction is exact *)

Lemma C1_SF : Prim2SF C1 = S754_finite false 6243301900419072 (-53).
Proof. reflexivity. Qed.

Lemma C1_product_all :
  forallb C1_product_ok (map (fun k => Z.of_nat k - 1022)%Z (seq 0 2045)) = true.
Proof. vm_compute. reflexivity. Qed.

(** X16. The first step of the range reduction loses nothing: for every
    [n] that [fastexp] can compute ([-1022 <= n <= 1022]) the product
    [(double)n * C1] is finite and its value is exactly [n] times the value
    of [C1]. *)
Theorem fastexp_reduce_high_product_exact (n : Z) :
  (-1022 <= n <= 1022)%Z ->
  SFreal (Prim2SF (Double.of_int n * C1)) = (IZR n * SFreal (Prim2SF C1))%R
  /\ is_finite (Double.of_int n * C1) = true.
Proof.
  intros Hn. pose proof C1_product_all as Hall.
  rewrite forallb_forall in Hall. specialize (Hall n).
  assert (Hin : In n (map (fun k => Z.of_nat k - 1022)%Z (seq 0 2045))).
  { apply in_map_iff. exists (Z.to_nat (n + 1022)). split; [lia|].
    apply in_seq. lia. }
  apply Hall in Hin. unfold C1_product_ok in Hin.
  rewrite C1_SF. cbn [SFreal cond_Zopp].
  assert (Hfin : forall v : float,
             (exists s, Prim2SF v = S754_zero s)
             \/ (exists s m e, Prim2SF v = S754_finite s m e) ->
             is_finite v = true).
  { intros v Hv. unfold is_finite, is_nan, is_infinity.
    rewrite !FloatAxioms.eqb_spec, abs_spec.
    change (Prim2SF infinity) with (S754_infinity false).
    unfold SFeqb, SFcompare. change (Pos.compare_cont Eq) with Pos.compare.
    destruct Hv as [[s ->]|(s & m & e & ->)]; cbn [SFabs].
    - reflexivity.
    - rewrite Z.compare_refl, Pos.compare_refl. now destruct s. }
  destruct (Prim2SF (Double.of_int n * C1)) as [s|s| |s m e] eqn:Hp;
    try discriminate Hin.
  - apply Z.eqb_eq in Hin. subst n. split; [cbn [SFreal]; lra|].
    apply Hfin. left. now exists s.
  - apply andb_true_iff in Hin as [He%Z.leb_le Heq%Z.eqb_eq].
    split; [|apply Hfin; right; now exists s, m, e].
    cbn [SFreal]. unfold SFval.
    apply (f_equal IZR) in Heq. rewrite !mult_IZR, pow2_IZR in Heq by lia.
    rewrite pow2_add in Heq.
    assert (H53 : (pow2 53 * pow2 (-53) = 1)%R).
    { rewrite <- pow2_add. reflexivity. }
    set (c := IZR (cond_Zopp s (Z.pos m))) in *.
    replace (c * pow2 e)%R with (c * (pow2 e * pow2 53) * pow2 (-53))%R
      by (rewrite !Rmult_assoc, H53; ring).
    rewrite Heq. ring.
Qed.

Lemma fastexp_reduce_high_product_exact_witness :
  SFreal (Prim2SF (Double.of_int (-7) * C1)) = (IZR (-7) * SFreal (Prim2SF C1))%R
  /\ is_finite (Double.of_int (-7) * C1) = true.
Proof. apply (fastexp_reduce_high_product_exact (-7)). lia. Defined.
